(** * AppComponent (src/app/app.component.ts): signals, observables and cleanup

    A shallow embedding of the component and of the parts of its host that
    its behaviour depends on.  Every callback of the event loop is a pure
    function on an explicit state; the console is the list of [console.log]
    calls in order.

    What is taken from the host:
    - JavaScript: a [number] is a double; [setInterval] fires its callback
      once per period until [clearInterval];
    - RxJS: a subscriber drops [next] and [complete] once it is closed;
      [complete] closes it; [unsubscribe] closes it and runs its finalizers,
      once; a subscribe function that returns nothing adds no finalizer;
      a [ReplaySubject(1)] replays its last value to a new subscriber;
    - Angular: a signal set to an equal value notifies nobody;
      [toObservable] is an effect feeding a [ReplaySubject(1)], so it emits
      when the scheduled effects run (in the change detection that follows a
      click), not when the signal changes; [toObservable] and [toSignal]
      register their cleanup with the component's [DestroyRef], whose
      callbacks run in the order of registration. *)

From Stdlib Require Import NArith Lia.
From stdpp Require Import base list strings pretty sorting.

(** ** JavaScript values *)
Module Js.

(** The object literal [{message: 'New value'}]. *)
Record Payload := { message : string }.

(** One call of [console.log], by the kind of its argument. *)
Inductive ConsoleArg :=
| LogString (s : string)
| LogObject (o : Payload).

Definition Console := list ConsoleArg.

(** A [number] that holds a count is a double whose value is a natural
    number.  Doubles are exact on the integers up to [2^53]; there
    [2^53 + 1] rounds (ties to even) back to [2^53]. *)
Definition max_exact : N := (2 ^ 53)%N.

(** [x + 1] and [x++] on such a number. *)
Definition add1 (x : N) : N := if (x <? max_exact)%N then (x + 1)%N else x.

(** [`${x}`] for such a number: below [1e21] a whole number prints in
    decimal digits. *)
Definition toString (x : N) : string := pretty x.

End Js.
Export Js.

(** ** RxJS: subscribers *)
Module Rx.

(** The state machine of one subscription: [closed] is false exactly in
    [Active]. *)
Inductive Status := Active | Completed | Canceled.

Inductive Notification (A : Type) :=
| Next (v : A)
| Complete.
Arguments Next {A} v.
Arguments Complete {A}.

(** The teardown closures a subscription of this program can hold:
    the one of [interval(period)], which clears its timer, and the one of
    a subject, which removes the observer from the subject's list.  What
    running one does is said where the subscriber lives. *)
Inductive Finalizer := ClearTimer | RemoveObserver.

(** The partial observer passed to [subscribe]; every handler of this
    program only writes to the console, a missing handler writes nothing. *)
Record Observer (A : Type) := mkObserver {
  on_next : A -> Console;
  on_complete : Console
}.
Arguments mkObserver {A} _ _.
Arguments on_next {A} _ _.
Arguments on_complete {A} _.

(** [received] and [finalized] are bookkeeping: the notifications handed to
    the observer so far, and how many times the finalizers were run. *)
Record Subscriber (A : Type) := mkSubscriber {
  status : Status;
  finalizers : list Finalizer;
  received : list (Notification A);
  finalized : nat
}.
Arguments mkSubscriber {A} _ _ _ _.
Arguments status {A} _.
Arguments finalizers {A} _.
Arguments received {A} _.
Arguments finalized {A} _.

Section Subscriber.
Context {A : Type}.

Definition fresh (fins : list Finalizer) : Subscriber A :=
  mkSubscriber Active fins [] 0.

Definition closed (s : Subscriber A) : bool :=
  match status s with Active => false | _ => true end.

(** [Subscription.unsubscribe]: does nothing when already closed;
    otherwise closes, forgets the finalizers and hands them to the caller
    to be executed. *)
Definition unsubscribe (s : Subscriber A) : Subscriber A * list Finalizer :=
  if closed s then (s, [])
  else (mkSubscriber Canceled [] (received s) (S (finalized s)), finalizers s).

(** [Subscriber.next]: dropped when stopped, else handed to the observer. *)
Definition next (obs : Observer A) (s : Subscriber A) (v : A)
  : Subscriber A * Console :=
  if closed s then (s, [])
  else (mkSubscriber (status s) (finalizers s) (received s ++ [Next v]) (finalized s),
        on_next obs v).

(** [Subscriber.complete]: dropped when stopped, else handed to the
    observer, after which the subscriber unsubscribes itself. *)
Definition complete (obs : Observer A) (s : Subscriber A)
  : Subscriber A * Console * list Finalizer :=
  if closed s then (s, [], [])
  else (mkSubscriber Completed [] (received s ++ [Complete]) (S (finalized s)),
        on_complete obs, finalizers s).

End Subscriber.

End Rx.

(** ** [customInterval$] *)
Module CustomInterval.
Import Rx.

(** [setInterval(..., 2000)] *)
Definition period_ms : N := 2000%N.

Definition payload : Payload := {| message := "New value" |}.

(** The closure environment of one run of the subscribe function:
    [timesExecuted], the timer handle [interval] (is it still scheduled?)
    and [subscriber] with the observer it wraps.  [elapsed_ms] is the time
    since the run, counted in whole periods. *)
Record Env := mkEnv {
  timesExecuted : N;
  interval_active : bool;
  subscriber : Subscriber Payload;
  destination : Observer Payload;
  elapsed_ms : N
}.

(** The body of [new Observable((subscriber) => { ... })].  The arrow
    function has no [return]: the subscriber gets no finalizer. *)
Definition subscribe (obs : Observer Payload) : Env :=
  mkEnv 0 true (fresh []) obs 0.

(** What a finalizer does to this environment when it is executed. *)
Definition exec_finalizer (e : Env) (f : Finalizer) : Env :=
  match f with
  | ClearTimer =>
      mkEnv (timesExecuted e) false (subscriber e) (destination e) (elapsed_ms e)
  | RemoveObserver => e
  end.

(** The callback given to [setInterval]. *)
Definition callback (e : Env) : Env * Console :=
  if (3 <? timesExecuted e)%N then
    let '(s, out, fins) := complete (destination e) (subscriber e) in
    (foldl exec_finalizer
       (mkEnv (timesExecuted e) false s (destination e) (elapsed_ms e)) fins,
     out)
  else
    let '(s, out) := next (destination e) (subscriber e) payload in
    (mkEnv (add1 (timesExecuted e)) (interval_active e) s (destination e)
       (elapsed_ms e),
     LogString "Emitting new value..." :: out).

(** One period goes by: the callback runs if the timer is still scheduled. *)
Definition tick (e : Env) : Env * Console :=
  let e' := mkEnv (timesExecuted e) (interval_active e) (subscriber e)
              (destination e) (elapsed_ms e + period_ms) in
  if interval_active e then callback e' else (e', []).

(** [unsubscribe()] on the subscription that [subscribe] returned. *)
Definition unsubscribe (e : Env) : Env :=
  let '(s, fins) := Rx.unsubscribe (subscriber e) in
  foldl exec_finalizer
    (mkEnv (timesExecuted e) (interval_active e) s (destination e) (elapsed_ms e))
    fins.

(** [k] periods in a row, with the console writes they make. *)
Fixpoint ticks (k : nat) (e : Env) : Env * Console :=
  match k with
  | O => (e, [])
  | S k' =>
      let '(e1, out1) := tick e in
      let '(e2, out2) := ticks k' e1 in
      (e2, out1 ++ out2)
  end.

Definition emitting : ConsoleArg := LogString "Emitting new value...".

(** What the observer has after [k] ticks of an uncancelled subscription. *)
Definition expected (k : nat) : list (Notification Payload) :=
  repeat (Next payload) (k `min` 4) ++ (if 5 <=? k then [Complete] else []).

(** The console lines of [k] ticks of the subscription made in [ngOnInit]. *)
Definition expected_console (k : nat) : Console :=
  concat (replicate (k `min` 4) [emitting; LogObject payload])
  ++ (if 5 <=? k then [LogString "COMPLETED"] else []).

End CustomInterval.

(** ** The timer queue with the runs of [customInterval$] and the console *)
Module Timers.
Import Rx CustomInterval.

(** [envs !! i] is the closure environment behind timer handle [i]. *)
Record Runtime := mkRuntime {
  envs : list Env;
  console : Console
}.

Definition boot : Runtime := mkRuntime [] [].

(** [customInterval$.subscribe(obs)]: the subscribe function runs once more,
    with variables of its own. *)
Definition subscribe (obs : Observer Payload) (rt : Runtime) : Runtime :=
  mkRuntime (envs rt ++ [CustomInterval.subscribe obs]) (console rt).

Inductive Event :=
| Tick (i : nat)
| Unsubscribe (i : nat).

Definition step (rt : Runtime) (ev : Event) : Runtime :=
  match ev with
  | Tick i =>
      match envs rt !! i with
      | Some e =>
          let '(e', out) := tick e in
          mkRuntime (<[i := e']> (envs rt)) (console rt ++ out)
      | None => rt
      end
  | Unsubscribe i => mkRuntime (alter unsubscribe i (envs rt)) (console rt)
  end.

Definition run (evs : list Event) (rt : Runtime) : Runtime := foldl step rt evs.

(** The events of [evs] that concern handle [i], applied to one environment. *)
Definition own_step (i : nat) (e : Env) (ev : Event) : Env :=
  match ev with
  | Tick j => if decide (j = i) then (tick e).1 else e
  | Unsubscribe j => if decide (j = i) then unsubscribe e else e
  end.

Definition own (i : nat) (evs : list Event) (e : Env) : Env :=
  foldl (own_step i) e evs.

(** How many times timer [i] fires in a schedule of timer handles. *)
Definition fires (i : nat) (schedule : list nat) : nat :=
  length (filter (λ j, j = i) schedule).

End Timers.

(** ** The component *)
Module App.
Import Rx.

(** [clickCount$ = toObservable(this.clickCount)]: an effect that reads the
    signal and feeds a [ReplaySubject(1)]. *)
Record Bridge := mkBridge {
  dirty : bool;        (* the effect is scheduled to run *)
  watching : bool;     (* the effect has not been destroyed *)
  buffer : option N;   (* the value the subject replays *)
  stopped : bool;      (* the subject has completed *)
  observed : bool      (* the subject's observer list holds the subscriber of ngOnInit *)
}.

(** [interval$ = interval(1000)] and
    [intervalSignal = toSignal(this.interval$, {initialValue: 0})]. *)
Record Ticker := mkTicker {
  ticker_next : N;             (* the value [interval$] emits next *)
  ticker_on : bool;            (* its timer is scheduled *)
  ticker_sub : Subscriber N;   (* the subscription made by [toSignal] *)
  intervalSignal : N
}.

(** The callbacks registered with the component's [DestroyRef]. *)
Inductive DestroyCallback :=
| ToObservableCleanup
| ToSignalCleanup
| NgOnInitCleanup.

(** [clickCount_obs] is [clickCount$]; [host] holds the runs of
    [customInterval$] and the console; [subscription] is the constant of
    that name in [ngOnInit], unbound before. *)
Record Component := mkComponent {
  clickCount : N;
  clickCount_obs : Bridge;
  interval_obs : Ticker;
  host : Timers.Runtime;
  subscription : option (Subscriber N);
  destroyRef : list DestroyCallback
}.

Definition console (w : Component) : Console := Timers.console (host w).

Definition log (out : Console) (rt : Timers.Runtime) : Timers.Runtime :=
  Timers.mkRuntime (Timers.envs rt) (Timers.console rt ++ out).

(** [{next: (val) => console.log(val), complete: () => console.log('COMPLETED')}] *)
Definition logObserver : Observer Payload :=
  mkObserver (λ val, [LogObject val]) [LogString "COMPLETED"].

Definition clicked (n : N) : string :=
  "Clicked button " +:+ toString n +:+ " times.".

(** [{next: (val) => console.log(`Clicked button ${this.clickCount()} times.`)}]:
    the handler reads the signal, not [val]. *)
Definition clickObserver (w : Component) : Observer N :=
  mkObserver (λ _, [LogString (clicked (clickCount w))]) [].

(** Field initializers, in the order of the class body. *)
Definition construct : Component :=
  mkComponent 0
    (mkBridge true true None false false)
    (mkTicker 0 true (fresh [ClearTimer]) 0)
    Timers.boot
    None
    [ToObservableCleanup; ToSignalCleanup].

Definition exec_finalizer (w : Component) (f : Finalizer) : Component :=
  match f with
  | ClearTimer =>
      let t := interval_obs w in
      mkComponent (clickCount w) (clickCount_obs w)
        (mkTicker (ticker_next t) false (ticker_sub t) (intervalSignal t))
        (host w) (subscription w) (destroyRef w)
  | RemoveObserver =>
      let b := clickCount_obs w in
      mkComponent (clickCount w)
        (mkBridge (dirty b) (watching b) (buffer b) (stopped b) false)
        (interval_obs w) (host w) (subscription w) (destroyRef w)
  end.

(** [subscriber.next(v)] on the subscriber of [ngOnInit]. *)
Definition deliver (v : N) (w : Component) : Component :=
  match subscription w with
  | Some s =>
      let '(s', out) := next (clickObserver w) s v in
      mkComponent (clickCount w) (clickCount_obs w) (interval_obs w)
        (log out (host w)) (Some s') (destroyRef w)
  | None => w
  end.

(** [subject.next(v)] of the [ReplaySubject(1)]. *)
Definition subject_next (v : N) (w : Component) : Component :=
  let b := clickCount_obs w in
  if stopped b then w
  else
    let w1 := mkComponent (clickCount w)
                (mkBridge (dirty b) (watching b) (Some v) (stopped b) (observed b))
                (interval_obs w) (host w) (subscription w) (destroyRef w) in
    if observed b then deliver v w1 else w1.

(** The scheduled effects run: the one of [toObservable] reads the signal
    and pushes its value into the subject. *)
Definition flushEffects (w : Component) : Component :=
  let b := clickCount_obs w in
  if dirty b && watching b then
    subject_next (clickCount w)
      (mkComponent (clickCount w)
         (mkBridge false (watching b) (buffer b) (stopped b) (observed b))
         (interval_obs w) (host w) (subscription w) (destroyRef w))
  else w.

(** [this.clickCount.update(prevCount => prevCount + 1)]: a signal that
    gets an equal value notifies nobody. *)
Definition onClick (w : Component) : Component :=
  let v := add1 (clickCount w) in
  if (v =? clickCount w)%N then w
  else
    let b := clickCount_obs w in
    mkComponent v
      (mkBridge true (watching b) (buffer b) (stopped b) (observed b))
      (interval_obs w) (host w) (subscription w) (destroyRef w).

(** A click on the button of the template: the listener calls [onClick],
    then the change detection that follows it runs the effects. *)
Definition uiClick (w : Component) : Component := flushEffects (onClick w).

(** [clickCount$.subscribe(observer)]: the subscriber joins the observer
      list unless the subject has stopped, gets the buffered value replayed,
      and is completed at once if the subject has stopped. *)
Definition subscribe_clickCount (w : Component) : Component :=
  let b := clickCount_obs w in
  let s0 : Subscriber N := fresh (if stopped b then [] else [RemoveObserver]) in
  let w1 := mkComponent (clickCount w)
              (mkBridge (dirty b) (watching b) (buffer b) (stopped b)
                 (negb (stopped b)))
              (interval_obs w) (host w) (Some s0) (destroyRef w) in
  let w2 := match buffer b with Some v => deliver v w1 | None => w1 end in
  if stopped b then
    match subscription w2 with
    | Some s =>
        let '(s', out, fins) := complete (clickObserver w2) s in
        foldl exec_finalizer
          (mkComponent (clickCount w2) (clickCount_obs w2) (interval_obs w2)
             (log out (host w2)) (Some s') (destroyRef w2))
          fins
    | None => w2
    end
  else w2.

(** The body of [ngOnInit]: the subscription to [customInterval$] is not
    kept, the one to [clickCount$] is bound to [subscription], and the
    cleanup callback is registered. *)
Definition ngOnInit (w : Component) : Component :=
  let w1 := mkComponent (clickCount w) (clickCount_obs w) (interval_obs w)
              (Timers.subscribe logObserver (host w))
              (subscription w) (destroyRef w) in
  let w2 := subscribe_clickCount w1 in
  mkComponent (clickCount w2) (clickCount_obs w2) (interval_obs w2) (host w2)
    (subscription w2) (destroyRef w2 ++ [NgOnInitCleanup]).

(** The callback given to [destroyRef.onDestroy]:
    [subscription.unsubscribe()].  [None] stands for the exception of
    reading [subscription] before [ngOnInit] has bound it. *)
Definition teardown (w : Component) : option Component :=
  match subscription w with
  | Some s =>
      let '(s', fins) := unsubscribe s in
      Some (foldl exec_finalizer
              (mkComponent (clickCount w) (clickCount_obs w) (interval_obs w)
                 (host w) (Some s') (destroyRef w))
              fins)
  | None => None
  end.

(** [subject.complete()]: the observer list is emptied and each observer
    completed. *)
Definition subject_complete (w : Component) : Component :=
  let b := clickCount_obs w in
  if stopped b then w
  else
    let w1 := mkComponent (clickCount w)
                (mkBridge (dirty b) (watching b) (buffer b) true false)
                (interval_obs w) (host w) (subscription w) (destroyRef w) in
    match subscription w1 with
    | Some s =>
        if observed b then
          let '(s', out, fins) := complete (clickObserver w1) s in
          foldl exec_finalizer
            (mkComponent (clickCount w1) (clickCount_obs w1) (interval_obs w1)
               (log out (host w1)) (Some s') (destroyRef w1))
            fins
        else w1
    | None => w1
    end.

Definition run_hook (w : Component) (h : DestroyCallback) : Component :=
  match h with
  | ToObservableCleanup =>
      (* watcher.destroy(); subject.complete() *)
      let b := clickCount_obs w in
      subject_complete
        (mkComponent (clickCount w)
           (mkBridge (dirty b) false (buffer b) (stopped b) (observed b))
           (interval_obs w) (host w) (subscription w) (destroyRef w))
  | ToSignalCleanup =>
      (* sub.unsubscribe() *)
      let t := interval_obs w in
      let '(s', fins) := unsubscribe (ticker_sub t) in
      foldl exec_finalizer
        (mkComponent (clickCount w) (clickCount_obs w)
           (mkTicker (ticker_next t) (ticker_on t) s' (intervalSignal t))
           (host w) (subscription w) (destroyRef w))
        fins
  | NgOnInitCleanup => default w (teardown w)
  end.

(** The component is destroyed: the registered callbacks run once, in the
    order of their registration. *)
Definition destroy (w : Component) : Component :=
  foldl run_hook
    (mkComponent (clickCount w) (clickCount_obs w) (interval_obs w) (host w)
       (subscription w) [])
    (destroyRef w).

(** The timer of [interval(1000)] fires: [toSignal] stores the value. *)
Definition intervalTick (w : Component) : Component :=
  let t := interval_obs w in
  if ticker_on t then
    let '(s', _) := next (mkObserver (λ _, []) []) (ticker_sub t) (ticker_next t) in
    mkComponent (clickCount w) (clickCount_obs w)
      (mkTicker (add1 (ticker_next t)) (ticker_on t) s'
         (if closed (ticker_sub t) then intervalSignal t else ticker_next t))
      (host w) (subscription w) (destroyRef w)
  else w.

(** The timer behind handle [i] of [customInterval$] fires. *)
Definition customTick (i : nat) (w : Component) : Component :=
  mkComponent (clickCount w) (clickCount_obs w) (interval_obs w)
    (Timers.step (host w) (Timers.Tick i)) (subscription w) (destroyRef w).

(** What can run once the component is initialised: a click on the button,
    a call of [onClick] by other code with no change detection after it, a
    run of the scheduled effects, a timer, the destruction. *)
Inductive Event :=
| Click
| Call
| Effects
| CustomTick (i : nat)
| IntervalTick
| Destroy.

Definition step (w : Component) (ev : Event) : Component :=
  match ev with
  | Click => uiClick w
  | Call => onClick w
  | Effects => flushEffects w
  | CustomTick i => customTick i w
  | IntervalTick => intervalTick w
  | Destroy => destroy w
  end.

Definition run (evs : list Event) (w : Component) : Component := foldl step w evs.

(** Creation and first change detection.  Whether the effect of
    [toObservable] first runs before or after [ngOnInit] is the host's
    choice; both orders are covered. *)
Definition init (effects_first : bool) : Component :=
  flushEffects (ngOnInit (if effects_first then flushEffects construct else construct)).

(** [n] clicks on the button. *)
Definition clicks (n : N) (w : Component) : Component := N.iter n uiClick w.

(** [n] calls of [onClick] in a row. *)
Definition calls (n : N) (w : Component) : Component := N.iter n onClick w.

(** What the observers of the component got so far. *)
Definition click_received (w : Component) : list (Notification N) :=
  match subscription w with Some s => received s | None => [] end.

Definition custom_received (w : Component) : list (Notification Payload) :=
  match Timers.envs (host w) !! 0 with
  | Some e => received (CustomInterval.subscriber e)
  | None => []
  end.

(** The console writes that go with one notification of [customInterval$]
    (the producer's line, then the observer's) and of [clickCount$]. *)
Definition custom_writes (n : Notification Payload) : Console :=
  match n with
  | Next v => [LogString "Emitting new value..."; LogObject v]
  | Complete => [LogString "COMPLETED"]
  end.

Definition click_writes (n : Notification N) : Console :=
  match n with
  | Next v => [LogString (clicked v)]
  | Complete => []
  end.

Definition is_next {A} (n : Notification A) : bool :=
  match n with Next _ => true | Complete => false end.

Definition nexts {A} (l : list (Notification A)) : nat :=
  length (List.filter is_next l).

Definition completes {A} (l : list (Notification A)) : nat :=
  length (List.filter (λ n, negb (is_next n)) l).

(** The changes [1; ...; n] of the count. *)
Definition changes (n : N) : list N :=
  N.peano_rect (λ _, list N) [] (λ k l, l ++ [N.succ k]) n.

Definition click_finalized (w : Component) : nat :=
  match subscription w with Some s => finalized s | None => 0 end.

Definition custom_finalized (w : Component) : nat :=
  match Timers.envs (host w) !! 0 with
  | Some e => finalized (CustomInterval.subscriber e)
  | None => 0
  end.

(** ** What holds in every state the component reaches *)

(** The finalizers of a subscriber have run once if it is closed, and not
    at all if it is open. *)
Definition run_once {A} (s : Subscriber A) : Prop :=
  finalized s = if closed s then 1 else 0.

(** The one run of [customInterval$] has the observer of [ngOnInit], which
    nobody cancels: it is closed only by the completion, which clears the
    timer.  [subscription] is bound. *)
Record Inv (w : Component) : Prop := mkInv {
  inv_custom : exists e,
    Timers.envs (host w) = [e]
    /\ CustomInterval.destination e = logObserver
    /\ run_once (CustomInterval.subscriber e)
    /\ (closed (CustomInterval.subscriber e) = true ->
        CustomInterval.interval_active e = false);
  inv_click : exists s, subscription w = Some s /\ run_once s;
  inv_ticker : run_once (ticker_sub (interval_obs w))
}.

(** The cleanup callbacks are all registered, or they have run and
    [subscription] is closed. *)
Definition hooks_ok (w : Component) : Prop :=
  destroyRef w = [ToObservableCleanup; ToSignalCleanup; NgOnInitCleanup]
  \/ (destroyRef w = []
      /\ exists s, subscription w = Some s /\ closed s = true).

(** The state after [n] clicks, as long as the count is exact: the bridge
    is up to date and the subscriber of [ngOnInit] is open. *)
Definition live (n : N) (w : Component) : Prop :=
  clickCount w = n
  /\ clickCount_obs w = mkBridge false true (Some n) false true
  /\ exists s, subscription w = Some s /\ status s = Active.

(** A cleanup callback leaves the console and [customInterval$] alone and
    at most completes the subscriber of [ngOnInit]. *)
Definition quiet (w w' : Component) : Prop :=
  host w' = host w
  /\ exists dk, click_received w' = click_received w ++ dk
                /\ Forall (λ n, n = Complete) dk.

(** A subscriber that is closed stays as it is. *)
Definition keeps_closed (w w' : Component) : Prop :=
  forall s, subscription w = Some s -> closed s = true -> subscription w' = Some s.

(** One step of the event loop handed [dk] to the observer of
    [clickCount$] and [dc] to the observer of [customInterval$], and wrote
    the lines that go with them and no others. *)
Definition delta (w w' : Component)
    (dk : list (Notification N)) (dc : list (Notification Payload)) : Prop :=
  click_received w' = click_received w ++ dk
  /\ custom_received w' = custom_received w ++ dc
  /\ console w' = console w ++ flat_map custom_writes dc ++ flat_map click_writes dk.

End App.

(** ** Reading a run of the component *)
Module Observations.
Import Rx App.

(** The events that call [onClick]. *)
Definition is_increment (ev : Event) : bool :=
  match ev with Click | Call => true | _ => false end.

Definition increments (evs : list Event) : nat :=
  length (List.filter is_increment evs).

(** The events that fire the timer of the run of [customInterval$] made in
    [ngOnInit], which has handle 0. *)
Definition is_custom_tick (ev : Event) : bool :=
  match ev with CustomTick 0 => true | _ => false end.

Definition custom_ticks (evs : list Event) : nat :=
  length (List.filter is_custom_tick evs).

Definition is_interval_tick (ev : Event) : bool :=
  match ev with IntervalTick => true | _ => false end.

Definition interval_ticks (evs : list Event) : nat :=
  length (List.filter is_interval_tick evs).

Definition is_destroy (ev : Event) : bool :=
  match ev with Destroy => true | _ => false end.

(** The counts handed to the observer of [clickCount$], in order. *)
Definition click_values (w : Component) : list N :=
  omap (λ n, match n with Next v => Some v | Complete => None end)
    (click_received w).

(** The emissions of [clickCount$] so far rise strictly and stay below the
    count; strictly below it while the effect waits to run. *)
Definition rising (w : Component) : Prop :=
  StronglySorted N.lt (click_values w)
  /\ Forall (λ v, (v <= clickCount w)%N) (click_values w)
  /\ (dirty (clickCount_obs w) = true ->
      Forall (λ v, (v < clickCount w)%N) (click_values w)).

(** Before its destruction the component has its three cleanup callbacks
    registered, the bridge of [clickCount$] is watching and observed by the
    open subscriber of [ngOnInit], and [interval$] is running with [toSignal]
    subscribed. *)
Definition mounted (w : Component) : Prop :=
  destroyRef w = [ToObservableCleanup; ToSignalCleanup; NgOnInitCleanup]
  /\ watching (clickCount_obs w) = true
  /\ stopped (clickCount_obs w) = false
  /\ observed (clickCount_obs w) = true
  /\ (exists s, subscription w = Some s
                /\ status s = Active /\ finalizers s = [RemoveObserver])
  /\ status (ticker_sub (interval_obs w)) = Active
  /\ finalizers (ticker_sub (interval_obs w)) = [ClearTimer]
  /\ ticker_on (interval_obs w) = true.

(** After it no callback is left, the bridge has stopped, the subscriber of
    [ngOnInit] has been completed, and [interval$] is cancelled with its timer
    cleared. *)
Definition unmounted (w : Component) : Prop :=
  destroyRef w = []
  /\ watching (clickCount_obs w) = false
  /\ stopped (clickCount_obs w) = true
  /\ (exists s, subscription w = Some s
                /\ status s = Completed
                /\ last (received s) = Some Complete)
  /\ status (ticker_sub (interval_obs w)) = Canceled
  /\ ticker_on (interval_obs w) = false.

(** One run of [customInterval$]: the counter is at most 4, the observer has
    a prefix of four payloads and a completion, and while it is open it has
    as many payloads as the counter says. *)
Definition bounded (e : CustomInterval.Env) : Prop :=
  (CustomInterval.timesExecuted e <= 4)%N
  /\ received (CustomInterval.subscriber e) `prefix_of` CustomInterval.expected 5
  /\ (status (CustomInterval.subscriber e) = Active ->
      received (CustomInterval.subscriber e)
      = replicate (N.to_nat (CustomInterval.timesExecuted e))
          (Next CustomInterval.payload)).

End Observations.

(** ** The earlier component (src/unnamed/part_000)

    [ngOnInit] subscribes to [interval(1000).pipe(map((val) => val * 2))]
    with an observer that logs each value, keeps the subscription and
    registers a callback that unsubscribes it. *)
Module IntervalApp.
Import Rx.

(** [(val) => val * 2]; doubling a double is exact. *)
Definition double (val : N) : N := (val * 2)%N.

Inductive DestroyCallback := NgOnInitCleanup.

(** [counter] is the count of [interval(1000)], the value it emits next;
    [timer_on] says whether its timer is scheduled; [subscription] is the
    constant of [ngOnInit], unbound before; [console] lists the numbers
    given to [console.log]. *)
Record Component := mkComponent {
  counter : N;
  timer_on : bool;
  subscription : option (Subscriber N);
  destroyRef : list DestroyCallback;
  console : list N
}.

Definition construct : Component := mkComponent 0 false None [] [].

(** The body of [ngOnInit]; unsubscribing from the piped observable
    unsubscribes from [interval(1000)], which clears its timer. *)
Definition ngOnInit (w : Component) : Component :=
  mkComponent 0 true (Some (fresh [ClearTimer]))
    (destroyRef w ++ [NgOnInitCleanup]) (console w).

Definition exec_finalizer (w : Component) (f : Finalizer) : Component :=
  match f with
  | ClearTimer =>
      mkComponent (counter w) false (subscription w) (destroyRef w) (console w)
  | RemoveObserver => w
  end.

(** The timer fires: the count goes through [map] to the observer
    [{next: (val) => console.log(val)}], and the count is incremented. *)
Definition tick (w : Component) : Component :=
  if timer_on w then
    match subscription w with
    | Some s =>
        let v := double (counter w) in
        let '(s', _) := next (mkObserver (λ _, []) []) s v in
        mkComponent (add1 (counter w)) (timer_on w) (Some s') (destroyRef w)
          (if closed s then console w else console w ++ [v])
    | None => w
    end
  else w.

(** The callback given to [destroyRef.onDestroy]:
    [subscription.unsubscribe()]. *)
Definition teardown (w : Component) : Component :=
  match subscription w with
  | Some s =>
      let '(s', fins) := unsubscribe s in
      foldl exec_finalizer
        (mkComponent (counter w) (timer_on w) (Some s') (destroyRef w) (console w))
        fins
  | None => w
  end.

Definition run_hook (w : Component) (h : DestroyCallback) : Component :=
  match h with NgOnInitCleanup => teardown w end.

(** The component is destroyed: the registered callbacks run once. *)
Definition destroy (w : Component) : Component :=
  foldl run_hook
    (mkComponent (counter w) (timer_on w) (subscription w) [] (console w))
    (destroyRef w).

Inductive Event := Tick | Destroy.

Definition step (w : Component) (ev : Event) : Component :=
  match ev with Tick => tick w | Destroy => destroy w end.

Definition run (evs : list Event) (w : Component) : Component := foldl step w evs.

Definition init : Component := ngOnInit construct.

(** The numbers [0, 2, ..., 2 (k - 1)]. *)
Definition evens (k : nat) : list N := (λ i, double (N.of_nat i)) <$> seq 0 k.

(** The component is either subscribed, with its timer scheduled and its
    callback registered, or destroyed. *)
Definition alive (w : Component) : Prop :=
  timer_on w = true
  /\ destroyRef w = [NgOnInitCleanup]
  /\ exists s, subscription w = Some s
              /\ closed s = false /\ finalizers s = [ClearTimer].

Definition dead (w : Component) : Prop :=
  timer_on w = false /\ destroyRef w = [].

End IntervalApp.

(** ** Lemmas on [customInterval$] *)
Module CustomIntervalFacts.
Import Rx CustomInterval.

Lemma ticks_add (a b : nat) (e : Env) :
  ticks (a + b) e =
  let '(e1, out1) := ticks a e in
  let '(e2, out2) := ticks b e1 in (e2, out1 ++ out2).
Proof.
  revert e. induction a as [|a IH]; intros e; simpl.
  - by destruct (ticks b e).
  - destruct (tick e) as [e1 o1]. rewrite IH.
    destruct (ticks a e1) as [e2 o2]. destruct (ticks b e2) as [e3 o3].
    by rewrite app_assoc.
Qed.

(** Once the timer is cleared only the clock moves. *)
Lemma ticks_cleared (k : nat) (e : Env) :
  interval_active e = false ->
  ticks k e =
  (mkEnv (timesExecuted e) false (subscriber e) (destination e)
     (elapsed_ms e + N.of_nat k * period_ms), []).
Proof.
  revert e. induction k as [|k IH]; intros [t a s d c] Ha; simpl in *; subst a.
  - do 2 f_equal. lia.
  - unfold tick; simpl. rewrite IH by done. simpl. do 2 f_equal. lia.
Qed.

(** Finalizers touch nothing but the timer, which they can only clear. *)
Lemma foldl_exec_finalizer (e : Env) (fins : list Finalizer) :
  timesExecuted (foldl exec_finalizer e fins) = timesExecuted e
  /\ subscriber (foldl exec_finalizer e fins) = subscriber e
  /\ destination (foldl exec_finalizer e fins) = destination e
  /\ elapsed_ms (foldl exec_finalizer e fins) = elapsed_ms e
  /\ (interval_active e = false ->
      interval_active (foldl exec_finalizer e fins) = false).
Proof.
  revert e. induction fins as [|f fins IH]; intros e; simpl; [done|].
  destruct (IH (exec_finalizer e f)) as (-> & -> & -> & -> & H).
  destruct f; simpl in *; repeat split; auto.
Qed.

Lemma foldl_cleared (e : Env) (fins : list Finalizer) :
  interval_active e = false -> foldl exec_finalizer e fins = e.
Proof.
  induction fins as [|f fins IH]; intros Ha; simpl; [done|].
  destruct f; [|by apply IH].
  destruct e as [t a s d c]; simpl in *; subst a. by apply IH.
Qed.

Lemma tick_closed (e : Env) :
  closed (subscriber e) = true -> subscriber (tick e).1 = subscriber e.
Proof.
  intros Hc. unfold tick, callback, next, complete; simpl.
  repeat case_match; simplify_eq/=; try done.
  all: try congruence.
Qed.

(** A closed subscriber is handed nothing, whatever the timer does. *)
Lemma ticks_closed (k : nat) (e : Env) :
  closed (subscriber e) = true -> subscriber (ticks k e).1 = subscriber e.
Proof.
  revert e. induction k as [|k IH]; intros e Hc; simpl; [done|].
  pose proof (tick_closed e Hc) as Ht.
  destruct (tick e) as [e1 o1]; simpl in Ht.
  specialize (IH e1). destruct (ticks k e1) as [e2 o2]; simpl in *.
  rewrite IH; congruence.
Qed.

(** The run of an uncancelled subscription. *)
Lemma ticks_fresh (obs : Observer Payload) (k : nat) :
  let e := (ticks k (subscribe obs)).1 in
  received (subscriber e) = expected k
  /\ status (subscriber e) = (if 5 <=? k then Completed else Active)
  /\ interval_active e = negb (5 <=? k)
  /\ elapsed_ms e = (N.of_nat k * period_ms)%N
  /\ timesExecuted e = N.of_nat (k `min` 4).
Proof.
  do 5 (destruct k as [|k]; [by vm_compute|]).
  change (S (S (S (S (S k))))) with (5 + k).
  cbv zeta. rewrite (ticks_add 5 k).
  set (e5 := ticks 5 (subscribe obs)). vm_compute in e5. subst e5.
  cbv beta iota zeta.
  rewrite (ticks_cleared k) by done. simpl.
  repeat split. unfold period_ms. lia.
Qed.

End CustomIntervalFacts.

(** ** Claims on [customInterval$] *)
Module CustomIntervalSpec.
Import Rx CustomInterval CustomIntervalFacts.

(** C1: a subscription to [customInterval$] that is never cancelled gets
    the payload [{message: "New value"}] on each of the first four ticks
    (so all four within four periods, 8000 ms, of subscribing), then one
    completion on the fifth tick, and nothing after it, whatever the
    observer; the timer runs until that fifth tick.  With the observer of
    [ngOnInit] the console shows the producer's line and the payload four
    times, then COMPLETED. *)
Theorem customInterval_emits_four_then_completes
    (obs : Observer Payload) (k : nat) :
  let e := (ticks k (subscribe obs)).1 in
  received (subscriber e) = expected k
  /\ status (subscriber e) = (if 5 <=? k then Completed else Active)
  /\ interval_active e = negb (5 <=? k)
  /\ elapsed_ms e = (N.of_nat k * period_ms)%N
  /\ expected 4 = [Next payload; Next payload; Next payload; Next payload]
  /\ expected (5 + k) = expected 4 ++ [Complete]
  /\ (ticks k (subscribe App.logObserver)).2 = expected_console k.
Proof.
  destruct (ticks_fresh obs k) as (H1 & H2 & H3 & H4 & _).
  do 6 (split; [done|]).
  do 5 (destruct k as [|k]; [by vm_compute|]).
  change (S (S (S (S (S k))))) with (5 + k).
  rewrite (ticks_add 5 k).
  set (e5 := ticks 5 _). vm_compute in e5. subst e5.
  cbv beta iota zeta.
  by rewrite (ticks_cleared k).
Qed.

(** C3, as the spec has it, fails: after a cancellation before the first
    tick the timer still fires, and its callback writes its line to the
    console. *)
Lemma cancel_before_first_tick_still_logs :
  ~ (let r := ticks 1 (unsubscribe (subscribe App.logObserver)) in
     received (subscriber r.1) = [] /\ r.2 = []).
Proof. vm_compute. intros [_ H]. discriminate H. Qed.

(** C3, amended: cancelling before the first tick leaves the observer with
    no emission at all and none of its handlers runs, but the timer is not
    cleared: it stays scheduled, the callback writes 'Emitting new value...'
    on each of the next four ticks while the counter goes up to 4, and only
    the fifth tick clears the timer. *)
Theorem cancel_before_first_tick_no_delivery
    (obs : Observer Payload) (k : nat) :
  let r := ticks k (unsubscribe (subscribe obs)) in
  received (subscriber r.1) = []
  /\ status (subscriber r.1) = Canceled
  /\ r.2 = replicate (k `min` 4) emitting
  /\ timesExecuted r.1 = N.of_nat (k `min` 4)
  /\ interval_active r.1 = negb (5 <=? k).
Proof.
  do 5 (destruct k as [|k]; [by vm_compute|]).
  change (S (S (S (S (S k))))) with (5 + k).
  rewrite (ticks_add 5 k).
  set (e5 := ticks 5 _). vm_compute in e5. subst e5.
  cbv beta iota zeta.
  by rewrite (ticks_cleared k).
Qed.

(** C7: one tick of a running timer.  With the counter below 4 the
    callback writes its line, calls [next] with the payload (which reaches
    the observer unless the subscriber is closed) and adds one to the
    counter, the timer staying scheduled.  With the counter at 4 it clears
    the timer and calls [complete] (which reaches an open subscriber and
    closes it) and the counter stays.  A closed subscriber, completed or
    cancelled, gets nothing more however many ticks follow, and a cleared
    timer neither writes nor notifies. *)
Theorem tick_contract (e : Env) (k : nat) :
  (interval_active e = true -> (timesExecuted e < 4)%N ->
     timesExecuted (tick e).1 = (timesExecuted e + 1)%N
     /\ interval_active (tick e).1 = true
     /\ (status (subscriber e) = Active ->
           received (subscriber (tick e).1) = received (subscriber e) ++ [Next payload]
           /\ status (subscriber (tick e).1) = Active
           /\ (tick e).2 = emitting :: on_next (destination e) payload)
     /\ (status (subscriber e) <> Active -> (tick e).2 = [emitting]))
  /\ (interval_active e = true -> (4 <= timesExecuted e)%N ->
     timesExecuted (tick e).1 = timesExecuted e
     /\ interval_active (tick e).1 = false
     /\ (status (subscriber e) = Active ->
           received (subscriber (tick e).1) = received (subscriber e) ++ [Complete]
           /\ status (subscriber (tick e).1) = Completed
           /\ (tick e).2 = on_complete (destination e))
     /\ (status (subscriber e) <> Active -> (tick e).2 = []))
  /\ (status (subscriber e) <> Active ->
        subscriber (ticks k e).1 = subscriber e)
  /\ (interval_active e = false ->
        subscriber (ticks k e).1 = subscriber e /\ (ticks k e).2 = []).
Proof.
  split; [|split; [|split]].
  - intros Ha Hlt. destruct e as [t a s d c]; simpl in *; subst a.
    unfold tick, callback; simpl.
    assert ((3 <? t)%N = false) as -> by (apply N.ltb_ge; lia).
    assert (add1 t = (t + 1)%N) as ->.
    { unfold add1, max_exact. case_match; [done|]. apply N.ltb_ge in H.
      change (2 ^ 53)%N with 9007199254740992%N in H. lia. }
    destruct s as [[] fs r n]; unfold next; simpl; repeat split; done.
  - intros Ha Hge. destruct e as [t a s d c]; simpl in *; subst a.
    unfold tick, callback; simpl.
    assert ((3 <? t)%N = true) as -> by (apply N.ltb_lt; lia).
    destruct s as [[] fs r n]; unfold complete; simpl; repeat split; try done.
    all: match goal with
         | |- context [foldl exec_finalizer ?e ?l] =>
             destruct (foldl_exec_finalizer e l) as (Ht & Hs & _ & _ & Hf);
             rewrite ?Ht, ?Hs, ?Hf
         end; done.
  - intros Hst. apply ticks_closed. unfold closed.
    by destruct (status (subscriber e)).
  - intros Ha. by rewrite ticks_cleared.
Qed.

Lemma tick_contract_witness :
  timesExecuted (tick (subscribe App.logObserver)).1 = 1%N
  /\ (tick (subscribe App.logObserver)).2 = [emitting; LogObject payload].
Proof.
  destruct (tick_contract (subscribe App.logObserver) 0) as [H _].
  destruct (H eq_refl) as (H1 & _ & H2 & _); [reflexivity|].
  destruct (H2 eq_refl) as (_ & _ & H3).
  split; [exact H1 | exact H3].
Defined.

(** C9: the subscribe function hands the subscriber no teardown, so
    [unsubscribe] after [j] ticks leaves the timer as it was; on the ticks
    that follow the callback goes on writing 'Emitting new value...' until
    the counter has reached 4 (that is [4 - j] times), then clears the
    timer, while the observer keeps exactly what it had before the
    [unsubscribe] and its handlers write nothing. *)
Theorem unsubscribe_leaves_timer_running
    (obs : Observer Payload) (j k : nat) :
  let e0 := (ticks j (subscribe obs)).1 in
  let e := unsubscribe e0 in
  let r := ticks k e in
  finalizers (subscriber (subscribe obs)) = []
  /\ interval_active e = interval_active e0
  /\ timesExecuted e = timesExecuted e0
  /\ r.2 = replicate (k `min` (4 - j)) emitting
  /\ received (subscriber r.1) = received (subscriber e0)
  /\ timesExecuted r.1 = N.of_nat ((j + k) `min` 4)
  /\ interval_active r.1 = negb (5 <=? j + k).
Proof.
  do 5 (destruct j as [|j];
        [do 5 (destruct k as [|k]; [by vm_compute|]);
         change (S (S (S (S (S k))))) with (5 + k);
         cbv zeta; rewrite (ticks_add 5 k);
         set (e5 := ticks 5 _); vm_compute in e5; subst e5;
         cbv beta iota zeta; rewrite (ticks_cleared k) by done;
         by vm_compute|]).
  change (S (S (S (S (S j))))) with (5 + j).
  cbv zeta. rewrite (ticks_add 5 j).
  set (e5 := ticks 5 _). vm_compute in e5. subst e5.
  cbv beta iota zeta. rewrite (ticks_cleared j) by done.
  unfold unsubscribe; simpl. rewrite (ticks_cleared k) by done. simpl.
  by rewrite Nat.min_0_r.
Qed.

End CustomIntervalSpec.

(** ** Several runs of [customInterval$] side by side *)
Module TimersSpec.
Import Rx CustomInterval CustomIntervalFacts Timers.

Lemma step_lookup (rt : Runtime) (ev : Event) (i : nat) :
  envs (step rt ev) !! i = (λ e, own_step i e ev) <$> envs rt !! i.
Proof.
  destruct ev as [j|j]; simpl.
  - destruct (decide (j = i)) as [->|Hne].
    + destruct (envs rt !! i) as [e|] eqn:Hi; [|by rewrite Hi].
      destruct (tick e) as [e' out] eqn:Ht; simpl.
      rewrite list_lookup_insert_eq by (by eapply lookup_lt_Some).
      by rewrite Ht.
    + rewrite option_fmap_id.
      destruct (envs rt !! j) as [e|]; [|done].
      destruct (tick e) as [e' out]; simpl.
      by rewrite list_lookup_insert_ne.
  - rewrite list_lookup_alter. destruct (decide (j = i)) as [->|Hne]; [done|].
    by rewrite option_fmap_id.
Qed.

(** What happens to the environment behind one handle is decided by the
    events of that handle alone. *)
Lemma run_lookup (evs : list Event) (rt : Runtime) (i : nat) :
  envs (run evs rt) !! i = own i evs <$> envs rt !! i.
Proof.
  revert rt. induction evs as [|ev evs IH]; intros rt; simpl.
  - by destruct (envs rt !! i).
  - unfold run in *; simpl. rewrite IH, step_lookup.
    by destruct (envs rt !! i).
Qed.

Lemma ticks_S_fst (k : nat) (e : Env) :
  (ticks (S k) e).1 = (ticks k (tick e).1).1.
Proof. simpl. destruct (tick e) as [e1 o1]; simpl. by destruct (ticks k e1). Qed.

Lemma own_schedule (i : nat) (schedule : list nat) (e : Env) :
  own i (Tick <$> schedule) e = (ticks (fires i schedule) e).1.
Proof.
  revert e. induction schedule as [|j sch IH]; intros e; [done|].
  unfold own, fires in *; simpl. rewrite filter_cons.
  destruct (decide (j = i)) as [->|Hne]; simpl length.
  - rewrite ticks_S_fst. apply IH.
  - apply IH.
Qed.

(** C10: every [subscribe] runs the subscribe function afresh, with its own
    [timesExecuted] starting at 0 and its own timer, next to the
    environments that exist, which it leaves as they are.  Whatever the
    order in which the timers fire (and whichever subscriptions are
    cancelled meanwhile), the environment of one subscription moves only
    by its own events; so of two subscriptions each gets the payload on its
    own first four ticks and the completion on its fifth, and its counter
    counts its own ticks only. *)
Theorem customInterval_is_cold
    (obs1 obs2 : Observer Payload) (rt : Runtime)
    (evs : list Event) (i : nat) (schedule : list nat) :
  envs (subscribe obs1 rt) = envs rt ++ [CustomInterval.subscribe obs1]
  /\ timesExecuted (CustomInterval.subscribe obs1) = 0%N
  /\ interval_active (CustomInterval.subscribe obs1) = true
  /\ envs (run evs rt) !! i = own i evs <$> envs rt !! i
  /\ let r := run (Tick <$> schedule) (subscribe obs2 (subscribe obs1 boot)) in
     (received ∘ subscriber <$> envs r !! 0) = Some (expected (fires 0 schedule))
     /\ (received ∘ subscriber <$> envs r !! 1) = Some (expected (fires 1 schedule))
     /\ (timesExecuted <$> envs r !! 0) = Some (N.of_nat (fires 0 schedule `min` 4))
     /\ (timesExecuted <$> envs r !! 1) = Some (N.of_nat (fires 1 schedule `min` 4)).
Proof.
  split; [done|]. split; [done|]. split; [done|]. split; [apply run_lookup|].
  cbv zeta. rewrite !run_lookup. simpl. rewrite !own_schedule.
  pose proof (ticks_fresh obs1 (fires 0 schedule)) as (-> & _ & _ & _ & ->).
  by pose proof (ticks_fresh obs2 (fires 1 schedule)) as (-> & _ & _ & _ & ->).
Qed.

End TimersSpec.

(** ** Lemmas on the component *)
Module AppFacts.
Import Rx App.

Lemma init_eq (b : bool) : init b = init false.
Proof. by destruct b. Qed.

Lemma Inv_init (b : bool) : Inv (init b).
Proof.
  rewrite init_eq. split.
  - eexists. vm_compute. by repeat split.
  - eexists. vm_compute. by split.
  - by vm_compute.
Qed.

Lemma hooks_ok_init (b : bool) : hooks_ok (init b).
Proof. rewrite init_eq. by left. Qed.

Lemma live_init (b : bool) : live 0 (init b).
Proof. rewrite init_eq. repeat split. by eexists. Qed.

(** *** Subscribers *)

Lemma run_once_next {A} (obs : Observer A) (s : Subscriber A) (v : A) :
  run_once s -> run_once (next obs s v).1.
Proof. destruct s as [[] fs r k]; unfold run_once, next; simpl; done. Qed.

Lemma run_once_complete {A} (obs : Observer A) (s : Subscriber A) :
  run_once s -> run_once (complete obs s).1.1.
Proof.
  destruct s as [[] fs r k]; unfold run_once, complete; simpl; try done.
  by intros ->.
Qed.

Lemma run_once_unsubscribe {A} (s : Subscriber A) :
  run_once s -> run_once (unsubscribe s).1.
Proof.
  destruct s as [[] fs r k]; unfold run_once, unsubscribe; simpl; try done.
  by intros ->.
Qed.

Lemma run_once_le {A} (s : Subscriber A) : run_once s -> finalized s <= 1.
Proof. unfold run_once. intros ->. case_match; lia. Qed.

(** Finalizers leave subscriptions, console and callbacks as they are. *)
Lemma finalizers_keep (w : Component) (fins : list Finalizer) :
  let w' := foldl exec_finalizer w fins in
  clickCount w' = clickCount w
  /\ host w' = host w
  /\ subscription w' = subscription w
  /\ destroyRef w' = destroyRef w
  /\ ticker_sub (interval_obs w') = ticker_sub (interval_obs w).
Proof.
  revert w. induction fins as [|f fins IH]; intros w; simpl; [done|].
  destruct (IH (exec_finalizer w f)) as (-> & -> & -> & -> & ->).
  by destruct f.
Qed.

Lemma Inv_ext (w w' : Component) :
  host w' = host w -> subscription w' = subscription w ->
  ticker_sub (interval_obs w') = ticker_sub (interval_obs w) ->
  Inv w -> Inv w'.
Proof. intros Hh Hs Ht [H1 H2 H3]. split; by rewrite ?Hh, ?Hs, ?Ht. Qed.

Lemma delta_refl (w w' : Component) :
  host w' = host w -> subscription w' = subscription w -> delta w w' [] [].
Proof.
  intros Hh Hs. unfold delta, click_received, custom_received, console.
  rewrite Hh, Hs. by rewrite !app_nil_r.
Qed.

(** *** The steps of the event loop *)

Lemma onClick_fields (w : Component) :
  host (onClick w) = host w
  /\ subscription (onClick w) = subscription w
  /\ destroyRef (onClick w) = destroyRef w
  /\ interval_obs (onClick w) = interval_obs w.
Proof. unfold onClick. by case_match. Qed.

Lemma flushEffects_sound (w : Component) :
  Inv w ->
  Inv (flushEffects w)
  /\ destroyRef (flushEffects w) = destroyRef w
  /\ (forall s, subscription w = Some s -> closed s = true ->
                subscription (flushEffects w) = Some s)
  /\ exists dk, delta w (flushEffects w) dk [].
Proof.
  intros HI. pose proof HI as [(e & He & Hd & Hr & Hc) (s & Hs & Hrs) Ht].
  destruct w as [c [d wt bf st ob] t [envs con] sub hooks]; simpl in *; subst.
  unfold flushEffects, subject_next, deliver, next; simpl.
  destruct d, wt, st, ob, (closed s) eqn:Hcl; unfold log; simpl;
    rewrite ?app_nil_r;
    try (split; [by (eapply Inv_ext; [| | |exact HI])|];
         split; [done|]; split; [done|];
         exists []; by apply delta_refl).
  split.
  { split; simpl; [by exists e| |done].
    eexists; split; [done|]. unfold run_once, closed in *. simpl.
    by rewrite Hcl in *. }
  split; [done|]. split; [intros ? [= <-]; congruence|].
  exists [Next c]. unfold delta, click_received, custom_received, console.
  simpl. by rewrite app_nil_r.
Qed.

Lemma uiClick_sound (w : Component) :
  Inv w ->
  Inv (uiClick w)
  /\ destroyRef (uiClick w) = destroyRef w
  /\ (forall s, subscription w = Some s -> closed s = true ->
                subscription (uiClick w) = Some s)
  /\ exists dk, delta w (uiClick w) dk [].
Proof.
  intros HI. destruct (onClick_fields w) as (Hh & Hs & Hd & Ht).
  assert (Inv (onClick w)) as HI' by (apply (Inv_ext w); by rewrite ?Ht).
  destruct (flushEffects_sound _ HI') as (H1 & H2 & H3 & dk & H4).
  unfold uiClick. split; [done|]. split; [congruence|].
  split; [intros s ??; apply H3; congruence|].
  exists dk. unfold delta, click_received, custom_received, console in *.
  by rewrite Hh, Hs in H4.
Qed.

Lemma customTick_sound (i : nat) (w : Component) :
  Inv w ->
  Inv (customTick i w)
  /\ destroyRef (customTick i w) = destroyRef w
  /\ subscription (customTick i w) = subscription w
  /\ exists dc, delta w (customTick i w) [] dc.
Proof.
  intros HI. pose proof HI as [(e & He & Hd & Hr & Hc) Hk Ht].
  destruct w as [c b t [envs con] sub hooks]; simpl in *; subst.
  unfold customTick; simpl.
  destruct i as [|i]; simpl;
    [|split; [done|]; split; [done|]; split; [done|];
      exists []; by apply delta_refl].
  destruct e as [n a s d el]; simpl in *; subst.
  unfold CustomInterval.tick, CustomInterval.callback, next, complete; simpl.
  destruct a; simpl.
  2:{ split; [|split; [done|]; split; [done|]; exists [];
                unfold delta, click_received, custom_received, console; simpl;
                by rewrite !app_nil_r].
      split; simpl; [|done|done]. eexists; split; [done|]. by simpl. }
  destruct (closed s) eqn:Hcl; [by specialize (Hc eq_refl)|].
  unfold run_once in Hr. rewrite Hcl in Hr.
  destruct (3 <? n)%N; simpl.
  - rewrite CustomIntervalFacts.foldl_cleared by done.
    split; [|split; [done|]; split; [done|]; exists [Complete]].
    + split; simpl; [|done|done]. eexists; split; [done|]. simpl.
      unfold run_once; simpl. by rewrite Hr.
    + unfold delta, click_received, custom_received, console; simpl.
      by rewrite !app_nil_r.
  - split; [|split; [done|]; split; [done|]; exists [Next CustomInterval.payload]].
    + split; simpl; [|done|done]. eexists; split; [done|]. simpl.
      unfold run_once, closed in *; simpl. rewrite Hcl. by repeat split.
    + unfold delta, click_received, custom_received, console; simpl.
      by rewrite !app_nil_r.
Qed.

Lemma intervalTick_sound (w : Component) :
  Inv w ->
  Inv (intervalTick w)
  /\ destroyRef (intervalTick w) = destroyRef w
  /\ subscription (intervalTick w) = subscription w
  /\ host (intervalTick w) = host w.
Proof.
  intros [H1 H2 H3]. unfold intervalTick.
  destruct (ticker_on (interval_obs w)); [|done].
  pose proof (run_once_next (mkObserver (λ _, []) []) _
                (ticker_next (interval_obs w)) H3) as H.
  destruct (next _ _ _) as [s' o]; simpl in *. by repeat split.
Qed.

(** *** Cleanup *)

Lemma teardown_closed (w : Component) (s : Subscriber N) :
  subscription w = Some s -> closed s = true -> teardown w = Some w.
Proof.
  intros Hs Hc. destruct w as [c b t h sub hooks]; simpl in *; subst.
  unfold teardown, unsubscribe; simpl. by rewrite Hc.
Qed.

Lemma teardown_sound (w : Component) :
  Inv w ->
  exists w1 s1,
    teardown w = Some w1
    /\ Inv w1
    /\ host w1 = host w
    /\ destroyRef w1 = destroyRef w
    /\ click_received w1 = click_received w
    /\ subscription w1 = Some s1 /\ closed s1 = true
    /\ (forall s, subscription w = Some s -> closed s = true -> w1 = w).
Proof.
  intros HI. pose proof HI as [Hc (s & Hs & Hrs) Ht].
  destruct (closed s) eqn:Hcl.
  - exists w, s. rewrite (teardown_closed w s Hs Hcl).
    unfold click_received. by split_and!.
  - unfold teardown. rewrite Hs. unfold unsubscribe. rewrite Hcl.
    match goal with
    | |- context [foldl exec_finalizer ?w0 ?fins] =>
        destruct (finalizers_keep w0 fins) as (H1 & H2 & H3 & H4 & H5);
        set (w1 := foldl exec_finalizer w0 fins) in *
    end.
    simpl in *. eexists w1, _. split; [done|].
    split.
    { split; rewrite ?H2, ?H3, ?H5; [done| |done].
      eexists; split; [done|]. unfold run_once in *; simpl.
      by rewrite Hcl in Hrs; rewrite Hrs. }
    unfold click_received. rewrite H3, Hs. split_and!; try done.
    intros s' [= <-]. congruence.
Qed.

Lemma quiet_refl (w w' : Component) :
  host w' = host w -> subscription w' = subscription w -> quiet w w'.
Proof.
  intros Hh Hs. split; [done|]. exists []. unfold click_received.
  by rewrite Hs, app_nil_r.
Qed.

Lemma quiet_trans (w1 w2 w3 : Component) :
  quiet w1 w2 -> quiet w2 w3 -> quiet w1 w3.
Proof.
  intros (Hh & dk & Hk & Hf) (Hh' & dk' & Hk' & Hf').
  split; [congruence|]. exists (dk ++ dk').
  rewrite Hk', Hk, app_assoc. split; [done|]. by apply Forall_app.
Qed.

Lemma keeps_closed_refl (w w' : Component) :
  subscription w' = subscription w -> keeps_closed w w'.
Proof. intros Hs s. by rewrite Hs. Qed.

Ltac unchanged HI :=
  split; [by (eapply Inv_ext; [| | |exact HI])|];
  split; [by apply quiet_refl|];
  split; [done|]; by apply keeps_closed_refl.

Lemma run_hook_sound (w : Component) (h : DestroyCallback) :
  Inv w ->
  Inv (run_hook w h)
  /\ quiet w (run_hook w h)
  /\ destroyRef (run_hook w h) = destroyRef w
  /\ keeps_closed w (run_hook w h).
Proof.
  intros HI. pose proof HI as [Hc (s & Hs & Hrs) Ht].
  destruct h; simpl.
  - destruct w as [c [d wt bf st ob] t [envs con] sub hooks]; simpl in *; subst.
    unfold subject_complete; simpl.
    destruct st; simpl; [unchanged HI|].
    destruct ob; simpl; [|unchanged HI].
    unfold complete. destruct (closed s) eqn:Hcl.
    + simpl. unfold log; simpl. rewrite app_nil_r. unchanged HI.
    + match goal with
      | |- context [foldl exec_finalizer ?w0 ?fins] =>
          destruct (finalizers_keep w0 fins) as (H1 & H2 & H3 & H4 & H5);
          set (w1 := foldl exec_finalizer w0 fins) in *
      end.
      simpl in *. unfold log in H2; simpl in H2. rewrite app_nil_r in H2.
      split.
      { split; rewrite ?H2, ?H3, ?H5; [done| |done].
        eexists; split; [done|]. unfold run_once in *; simpl.
        by rewrite Hcl in Hrs; rewrite Hrs. }
      split.
      { split; [done|]. exists [Complete].
        unfold click_received. rewrite H3. simpl. split; [done|].
        by repeat constructor. }
      split; [done|]. intros s' [= <-]. congruence.
  - unfold unsubscribe.
    pose proof (run_once_unsubscribe _ Ht) as Hu. unfold unsubscribe in Hu.
    destruct (closed (ticker_sub (interval_obs w))) eqn:Hcl; simpl in *.
    + destruct w as [c b [tn ton ts sg] h sub hooks]. unchanged HI.
    + match goal with
      | |- context [foldl exec_finalizer ?w0 ?fins] =>
          destruct (finalizers_keep w0 fins) as (H1 & H2 & H3 & H4 & H5);
          set (w1 := foldl exec_finalizer w0 fins) in *
      end.
      simpl in *.
      split; [split; rewrite ?H2, ?H3, ?H5; eauto|].
      split; [by apply quiet_refl|]. split; [done|].
      by apply keeps_closed_refl.
  - destruct (teardown_sound w HI) as (w1 & s1 & -> & HI1 & Hh & Hd & Hr & Hs1 & Hcl & Hid).
    simpl. split; [done|]. split.
    { split; [done|]. exists []. by rewrite Hr, app_nil_r. }
    split; [done|]. intros s' Hs' Hc'. by rewrite (Hid s' Hs' Hc').
Qed.

Lemma run_hooks_sound (hs : list DestroyCallback) (w : Component) :
  Inv w ->
  Inv (foldl run_hook w hs)
  /\ quiet w (foldl run_hook w hs)
  /\ destroyRef (foldl run_hook w hs) = destroyRef w
  /\ keeps_closed w (foldl run_hook w hs).
Proof.
  revert w. induction hs as [|h hs IH]; intros w HI; simpl.
  - split; [done|]. split; [by apply quiet_refl|]. split; [done|]. by intros s.
  - destruct (run_hook_sound w h HI) as (H1 & H2 & H3 & H4).
    destruct (IH _ H1) as (H1' & H2' & H3' & H4').
    split; [done|]. split; [by eapply quiet_trans|]. split; [congruence|].
    intros s Hs Hc. apply H4'; [by apply H4|done].
Qed.

Lemma destroy_sound (w : Component) :
  Inv w -> hooks_ok w ->
  Inv (destroy w)
  /\ destroyRef (destroy w) = []
  /\ (exists s, subscription (destroy w) = Some s /\ closed s = true)
  /\ quiet w (destroy w).
Proof.
  intros HI Hk. unfold destroy.
  set (w0 := mkComponent _ _ _ _ _ []).
  assert (Inv w0) as HI0 by (by apply (Inv_ext w)).
  destruct (run_hooks_sound (destroyRef w) w0 HI0) as (H1 & H2 & H3 & H4).
  split; [done|]. split; [by rewrite H3|]. split.
  - destruct Hk as [Hk|(Hk & s & Hs & Hc)].
    + rewrite Hk.
      set (w2 := run_hook (run_hook w0 ToObservableCleanup) ToSignalCleanup).
      change (foldl run_hook w0 _) with (default w2 (teardown w2)).
      assert (Inv w2) as HI2.
      { apply run_hook_sound. by apply run_hook_sound. }
      destruct (teardown_sound w2 HI2) as (w3 & s3 & -> & _ & _ & _ & _ & ? & ? & _).
      simpl. eauto.
    + exists s. split; [|done]. by apply H4.
  - eapply quiet_trans; [|exact H2]. by apply quiet_refl.
Qed.

Lemma destroy_again (w : Component) : destroyRef w = [] -> destroy w = w.
Proof. intros H. unfold destroy. rewrite H. simpl. destruct w; simpl in *. by subst. Qed.

Lemma quiet_delta (w w' : Component) :
  quiet w w' -> exists dk, delta w w' dk [].
Proof.
  intros (Hh & dk & Hk & Hf). exists dk.
  unfold delta, custom_received, console. rewrite Hh, Hk.
  split; [done|]. split; [by rewrite app_nil_r|].
  assert (flat_map click_writes dk = []) as ->.
  { clear Hk. induction Hf as [|n dk -> _ IH]; [done|]. by simpl. }
  by rewrite !app_nil_r.
Qed.

(** One event keeps the invariants and accounts for its console writes. *)
Lemma step_sound (w : Component) (ev : Event) :
  Inv w -> hooks_ok w ->
  Inv (step w ev) /\ hooks_ok (step w ev)
  /\ exists dk dc, delta w (step w ev) dk dc.
Proof.
  intros HI Hk. destruct ev as [| | |i| |]; simpl.
  - destruct (uiClick_sound w HI) as (H1 & H2 & H3 & dk & H4).
    split; [done|]. split; [|by exists dk, []].
    destruct Hk as [Hk|(Hk & s & Hs & Hc)]; [left; congruence|].
    right. split; [congruence|]. exists s. split; [by apply H3|done].
  - destruct (onClick_fields w) as (Hh & Hs & Hd & Ht).
    split; [apply (Inv_ext w); by rewrite ?Ht|].
    split; [unfold hooks_ok; by rewrite Hd, Hs|].
    exists [], []. by apply delta_refl.
  - destruct (flushEffects_sound w HI) as (H1 & H2 & H3 & dk & H4).
    split; [done|]. split; [|by exists dk, []].
    destruct Hk as [Hk|(Hk & s & Hs & Hc)]; [left; congruence|].
    right. split; [congruence|]. exists s. split; [by apply H3|done].
  - destruct (customTick_sound i w HI) as (H1 & H2 & H3 & dc & H4).
    split; [done|]. split; [|by exists [], dc].
    unfold hooks_ok. by rewrite H2, H3.
  - destruct (intervalTick_sound w HI) as (H1 & H2 & H3 & H4).
    split; [done|]. split; [unfold hooks_ok; by rewrite H2, H3|].
    exists [], []. by apply delta_refl.
  - destruct (destroy_sound w HI Hk) as (H1 & H2 & H3 & H4).
    split; [done|]. split; [by right|].
    destruct (quiet_delta _ _ H4) as [dk Hd]. by exists dk, [].
Qed.

(** Every state the event loop reaches from the initialised component. *)
Lemma run_sound (b : bool) (evs : list Event) :
  Inv (run evs (init b)) /\ hooks_ok (run evs (init b)).
Proof.
  induction evs as [|ev evs IH] using rev_ind.
  - split; [apply Inv_init|apply hooks_ok_init].
  - unfold run in *. rewrite foldl_snoc.
    destruct IH as [HI Hk]. destruct (step_sound _ ev HI Hk) as (? & ? & _).
    done.
Qed.

(** *** Counting console lines *)

Lemma nexts_app {A} (l l' : list (Notification A)) :
  nexts (l ++ l') = nexts l + nexts l'.
Proof. unfold nexts. by rewrite List.filter_app, length_app. Qed.

Lemma completes_app {A} (l l' : list (Notification A)) :
  completes (l ++ l') = completes l + completes l'.
Proof. unfold completes. by rewrite List.filter_app, length_app. Qed.

Lemma length_custom_writes (dc : list (Notification Payload)) :
  length (flat_map custom_writes dc) = 2 * nexts dc + completes dc.
Proof.
  induction dc as [|[v|] dc IH]; [done| |];
    unfold nexts, completes in *; simpl in *; lia.
Qed.

Lemma length_click_writes (dk : list (Notification N)) :
  length (flat_map click_writes dk) = nexts dk.
Proof.
  induction dk as [|[v|] dk IH]; [done| |];
    unfold nexts in *; simpl in *; lia.
Qed.

Lemma run_count (b : bool) (evs : list Event) :
  let w := run evs (init b) in
  length (console w)
  = nexts (click_received w) + 2 * nexts (custom_received w)
    + completes (custom_received w).
Proof.
  induction evs as [|ev evs IH] using rev_ind.
  - rewrite init_eq. by vm_compute.
  - cbv zeta in *. destruct (run_sound b evs) as [HI Hk].
    unfold run in *. rewrite foldl_snoc.
    destruct (step_sound _ ev HI Hk) as (_ & _ & dk & dc & Hr & Hc & Hl).
    rewrite Hr, Hc, Hl, !length_app, !nexts_app, completes_app.
    rewrite length_custom_writes, length_click_writes. lia.
Qed.

(** *** Counting clicks *)

Lemma add1_below (n : N) : (n < max_exact)%N -> add1 n = (n + 1)%N.
Proof. intros H. unfold add1. by apply N.ltb_lt in H as ->. Qed.

Lemma add1_at (n : N) : (max_exact <= n)%N -> add1 n = n.
Proof. intros H. unfold add1. by apply N.ltb_ge in H as ->. Qed.

Lemma changes_succ (n : N) : changes (N.succ n) = changes n ++ [N.succ n].
Proof. unfold changes. by rewrite N.peano_rect_succ. Qed.

Lemma length_changes (n : N) : N.of_nat (length (changes n)) = n.
Proof.
  induction n as [|n IH] using N.peano_ind; [done|].
  rewrite changes_succ, length_app; simpl. lia.
Qed.

Lemma clicks_succ (n : N) (w : Component) :
  clicks (N.succ n) w = uiClick (clicks n w).
Proof. unfold clicks. apply N.iter_succ. Qed.

(** Below the limit of exact counting a click adds one, and the bridge
    hands the new count to the observer, which logs it. *)
Lemma uiClick_live (n : N) (w : Component) :
  live n w -> (n < max_exact)%N ->
  live (n + 1) (uiClick w)
  /\ click_received (uiClick w) = click_received w ++ [Next (n + 1)%N]
  /\ console (uiClick w) = console w ++ [LogString (clicked (n + 1))].
Proof.
  intros (Hn & Hb & s & Hs & Hst) Hlt.
  destruct w as [c b t h sub hooks]; simpl in *; subst.
  destruct s as [st fs r k]; simpl in *; subst.
  unfold uiClick, onClick; simpl. rewrite (add1_below n Hlt).
  assert ((n + 1 =? n)%N = false) as -> by (apply N.eqb_neq; lia).
  unfold live, click_received, console. simpl. repeat split. by eexists.
Qed.

(** At the limit the count stays, so the signal notifies nobody. *)
Lemma uiClick_saturated (n : N) (w : Component) :
  live n w -> (max_exact <= n)%N -> uiClick w = w.
Proof.
  intros (Hn & Hb & _) Hge.
  destruct w as [c b t h sub hooks]; simpl in *; subst.
  unfold uiClick, onClick; simpl. rewrite (add1_at n Hge), N.eqb_refl.
  done.
Qed.

Lemma clicks_live (b : bool) (n : N) :
  (n <= max_exact)%N ->
  live n (clicks n (init b))
  /\ click_received (clicks n (init b)) = Next 0%N :: (Next <$> changes n)
  /\ console (clicks n (init b))
     = LogString (clicked 0) :: ((λ v, LogString (clicked v)) <$> changes n).
Proof.
  induction n as [|n IH] using N.peano_ind; intros Hle.
  - split; [apply live_init|]. rewrite init_eq. by split.
  - destruct IH as (Hl & Hr & Hc); [lia|].
    rewrite clicks_succ, changes_succ, !fmap_app; simpl.
    destruct (uiClick_live n _ Hl) as (Hl' & -> & ->); [lia|].
    rewrite Hr, Hc, <- N.add_1_r. done.
Qed.

(** *** Calls of [onClick] in a row *)

Lemma calls_succ (n : N) (w : Component) :
  calls (N.succ n) w = onClick (calls n w).
Proof. unfold calls. apply N.iter_succ. Qed.

Lemma clickCount_onClick (w : Component) :
  clickCount (onClick w) = add1 (clickCount w).
Proof.
  unfold onClick. destruct (add1 (clickCount w) =? clickCount w)%N eqn:H; [|done].
  by apply N.eqb_eq in H.
Qed.

(** Calls that no run of the effects separates only mark the effect of
    [toObservable] as scheduled. *)
Lemma calls_pending (b : bool) (n : N) :
  (N.succ n <= max_exact)%N ->
  calls (N.succ n) (init b)
  = mkComponent (N.succ n) (mkBridge true true (Some 0%N) false true)
      (interval_obs (init false)) (host (init false))
      (subscription (init false)) (destroyRef (init false)).
Proof.
  rewrite init_eq.
  induction n as [|n IH] using N.peano_ind; intros Hle; [done|].
  rewrite calls_succ, IH by lia. unfold onClick; simpl.
  rewrite add1_below by lia.
  assert ((N.succ n + 1 =? N.succ n)%N = false) as -> by (apply N.eqb_neq; lia).
  by rewrite N.add_1_r.
Qed.

(** When the effects run at last, the observer gets the last count only. *)
Lemma calls_coalesce (b : bool) (n : N) :
  (1 <= n <= max_exact)%N ->
  let w := flushEffects (calls n (init b)) in
  clickCount w = n
  /\ click_received w = [Next 0%N; Next n]
  /\ console w = [LogString (clicked 0); LogString (clicked n)].
Proof.
  intros [H1 H2]. cbv zeta.
  rewrite <- (N.succ_pred_pos n) in * by lia.
  by rewrite calls_pending.
Qed.

(** Beyond the limit nothing moves any more. *)
Lemma clicks_beyond (b : bool) :
  clicks (max_exact + 1) (init b) = clicks max_exact (init b).
Proof.
  rewrite N.add_1_r, clicks_succ.
  destruct (clicks_live b max_exact) as (Hl & _); [lia|].
  by apply (uiClick_saturated max_exact).
Qed.

End AppFacts.

(** ** Claims on the click count and its bridge *)
Module ClickSpec.
Import Rx App AppFacts.

(** C4, as the spec has it, fails whichever way the calls are made.  Two
    calls of [onClick] in a row, with the effects run after them, bring one
    change emission, not two: [toObservable] emits when its effect runs, not
    when the signal changes.  And the count is a double: one click after
    [2^53] clicks it still reads [2^53]. *)
Lemma increments_not_counted_one_by_one :
  (let w := flushEffects (calls 2 (init false)) in
   ~ (clickCount w = 2%N
      /\ N.of_nat (length (click_received w)) = (2 + 1)%N))
  /\ (let n := (max_exact + 1)%N in
      let w := clicks n (init false) in
      ~ (clickCount w = n
         /\ N.of_nat (length (click_received w)) = (n + 1)%N)).
Proof.
  split.
  - vm_compute. intros [_ H]. discriminate H.
  - cbv zeta. rewrite clicks_beyond.
    destruct (clicks_live false max_exact) as ((Hn & _) & _); [lia|].
    rewrite Hn. intros [H _]. lia.
Qed.

(** C4, amended: for every [n] up to [2^53], [n] calls of [onClick] from the
    initial state leave [clickCount] at [n].  When each call is a click on
    the button, so that the effects run after it, the observer of
    [clickCount$] has got the initial [0] followed by the [n] changes
    [1 .. n], one per click and nothing else.  Calls in a row, with no run of
    the effects between them, share one emission, that of the last count. *)
Theorem clicks_count_and_emissions (b : bool) (n : N) :
  (n <= max_exact)%N ->
  clickCount (calls n (init b)) = n
  /\ clickCount (clicks n (init b)) = n
  /\ click_received (clicks n (init b)) = Next 0%N :: (Next <$> changes n)
  /\ N.of_nat (length (changes n)) = n
  /\ N.of_nat (length (click_received (clicks n (init b)))) = (n + 1)%N
  /\ ((1 <= n)%N ->
      click_received (flushEffects (calls n (init b))) = [Next 0%N; Next n]).
Proof.
  intros Hle. destruct (clicks_live b n Hle) as ((Hn & _) & Hr & _).
  rewrite Hr. split_and!; try done.
  - destruct (N.eq_dec n 0%N) as [->|Hne]; [by rewrite init_eq|].
    pose proof (N.succ_pred n Hne) as E. rewrite <- E.
    rewrite calls_pending; [done | by rewrite E].
  - apply length_changes.
  - simpl. rewrite length_fmap. pose proof (length_changes n). lia.
  - intros H1. by apply calls_coalesce.
Qed.

Lemma clicks_count_and_emissions_witness :
  clickCount (clicks 3 (init false)) = 3%N
  /\ click_received (clicks 3 (init false))
     = [Next 0%N; Next 1%N; Next 2%N; Next 3%N].
Proof.
  destruct (clicks_count_and_emissions false 3) as (_ & H1 & H2 & _).
  - vm_compute. discriminate.
  - split; [exact H1 | exact H2].
Defined.

(** C5, as the spec has it, fails.  The emission of the current count is
    not made by [subscribe]: when the effect of [toObservable] has not run
    yet, the subscriber of [ngOnInit] has nothing when [subscribe] returns,
    and gets the [0] when the effects run.  Three calls of [onClick] in a
    row, with the effects run after them, are logged as [0, 3], not
    [0, 1, 2, 3].  And the increment that follows [2^53] clicks brings no
    emission. *)
Lemma increments_in_a_row_emit_once :
  (click_received (ngOnInit construct) = []
   /\ click_received (flushEffects (ngOnInit construct)) = [Next 0%N])
  /\ (click_received (flushEffects (calls 3 (init false)))
      <> [Next 0%N; Next 1%N; Next 2%N; Next 3%N])
  /\ (let w := clicks max_exact (init false) in
      ~ exists x, click_received (uiClick w) = click_received w ++ [x]).
Proof.
  split; [by vm_compute|]. split; [by vm_compute|].
  cbv zeta. destruct (clicks_live false max_exact) as (Hl & _); [lia|].
  rewrite (uiClick_saturated max_exact) by (done || lia).
  generalize (click_received (clicks max_exact (init false))).
  intros l [x Hx]. apply (f_equal length) in Hx. rewrite length_app in Hx.
  simpl in Hx. lia.
Qed.

(** C5, amended: the observer of [clickCount$] gets one emission, the
    current count [0], as soon as the effect of [toObservable] has run:
    inside [subscribe] itself when the effect has run before [ngOnInit], and
    otherwise not in [subscribe] but at the run of the effects that ends the
    initialisation.  Either way it has exactly that emission, logged, when
    the initialisation is over.  Every click on the button made while the
    count is below [2^53] brings exactly one further emission, the new
    count, which is logged.  After three clicks the emissions are
    [0, 1, 2, 3] in this order, logged one by one, and the count reads 3. *)
Theorem bridge_initial_then_one_per_increment (b : bool) (n : N) :
  (n < max_exact)%N ->
  let w := clicks n (init b) in
  click_received (init b) = [Next 0%N]
  /\ console (init b) = [LogString "Clicked button 0 times."]
  /\ click_received (ngOnInit (flushEffects construct)) = [Next 0%N]
  /\ click_received (ngOnInit construct) = []
  /\ click_received (flushEffects (ngOnInit construct)) = [Next 0%N]
  /\ click_received (uiClick w) = click_received w ++ [Next (n + 1)%N]
  /\ console (uiClick w) = console w ++ [LogString (clicked (n + 1))]
  /\ clickCount (uiClick w) = (n + 1)%N
  /\ click_received (clicks 3 (init b))
     = [Next 0%N; Next 1%N; Next 2%N; Next 3%N]
  /\ console (clicks 3 (init b))
     = [LogString "Clicked button 0 times."; LogString "Clicked button 1 times.";
        LogString "Clicked button 2 times."; LogString "Clicked button 3 times."]
  /\ clickCount (clicks 3 (init b)) = 3%N.
Proof.
  intros Hlt. cbv zeta.
  destruct (clicks_live b n) as (Hl & _); [lia|].
  destruct (uiClick_live n _ Hl Hlt) as ((Hn & _) & Hr & Hc).
  rewrite !(init_eq b) in *.
  do 5 (split; [done|]). do 3 (split; [done|]). by vm_compute.
Qed.

Lemma bridge_initial_then_one_per_increment_witness :
  click_received (uiClick (clicks 2 (init true)))
  = click_received (clicks 2 (init true)) ++ [Next 3%N].
Proof.
  destruct (bridge_initial_then_one_per_increment true 2)
    as (_ & _ & _ & _ & _ & H & _).
  - vm_compute. reflexivity.
  - exact H.
Defined.

End ClickSpec.

(** ** Claims on cleanup and on the console *)
Module LifecycleSpec.
Import Rx App AppFacts.

(** C2: the cleanup callback cancels the one subscription that [ngOnInit]
    kept, the one to [clickCount$]; the subscription to [customInterval$]
    was not kept and is not cancelled.  After the component is destroyed
    right after its initialisation, or after the callback alone has run,
    the next tick of the timer still hands the payload to the observer,
    which logs it. *)
Theorem customInterval_outlives_teardown (b : bool) :
  let w := destroy (init b) in
  (exists s, subscription w = Some s /\ closed s = true)
  /\ custom_received w = []
  /\ custom_received (step w (CustomTick 0)) = [Next CustomInterval.payload]
  /\ console (step w (CustomTick 0))
     = console w ++ [CustomInterval.emitting; LogObject CustomInterval.payload]
  /\ exists w1, teardown (init b) = Some w1
                /\ custom_received (step w1 (CustomTick 0))
                   = [Next CustomInterval.payload].
Proof.
  rewrite init_eq. cbv zeta. split; [by eexists|].
  do 3 (split; [by vm_compute|]). by eexists.
Qed.

(** C6: in every state the component reaches, the cleanup callback returns
    normally, and run a second time it returns normally again and changes
    nothing; it writes nothing and hands the observer nothing.  Once the
    component is destroyed, where [toObservable] has completed the stream
    before the callback runs, the callback changes nothing at all, and
    destroying again changes nothing.  The finalizers of no subscription
    ever run more than once. *)
Theorem teardown_is_idempotent (b : bool) (evs : list Event) :
  let w := run evs (init b) in
  (exists w1, teardown w = Some w1
              /\ teardown w1 = Some w1
              /\ console w1 = console w
              /\ click_received w1 = click_received w
              /\ click_finalized w1 = 1)
  /\ teardown (destroy w) = Some (destroy w)
  /\ destroy (destroy w) = destroy w
  /\ click_finalized w <= 1
  /\ click_finalized (destroy w) = 1
  /\ custom_finalized w <= 1
  /\ finalized (ticker_sub (interval_obs w)) <= 1.
Proof.
  cbv zeta. destruct (run_sound b evs) as [HI Hk].
  set (w := run evs (init b)) in *.
  destruct (teardown_sound w HI)
    as (w1 & s1 & Ht & HI1 & Hh & Hd & Hr & Hs1 & Hcl & Hid).
  destruct (destroy_sound w HI Hk) as (HId & Hdr & (sd & Hsd & Hcd) & _).
  pose proof HI as [(e & He & _ & Hre & _) (s & Hs & Hrs) Hrt].
  split_and!.
  - exists w1. rewrite Ht, (teardown_closed w1 s1 Hs1 Hcl).
    unfold console, click_finalized. rewrite Hh, Hs1. split_and!; try done.
    destruct HI1 as [_ (s' & Hs' & Hr') _]. simplify_eq.
    unfold run_once in Hr'. by rewrite Hcl in Hr'.
  - by apply (teardown_closed _ sd).
  - by apply destroy_again.
  - unfold click_finalized. rewrite Hs. by apply run_once_le.
  - unfold click_finalized. rewrite Hsd.
    destruct HId as [_ (s' & Hs' & Hr') _]. simplify_eq.
    unfold run_once in Hr'. by rewrite Hcd in Hr'.
  - unfold custom_finalized. rewrite He. simpl. by apply run_once_le.
  - by apply run_once_le.
Qed.

(** C8, as the spec has it, fails: one emission of [customInterval$]
    brings two console lines, the producer's and the observer's. *)
Lemma customInterval_emission_writes_twice :
  let w := run [CustomTick 0] (init false) in
  ~ (length (console w)
     = nexts (click_received w) + nexts (custom_received w)
       + completes (click_received w) + completes (custom_received w)).
Proof. vm_compute. discriminate. Qed.

(** C8, amended: the console is the only thing the component writes to.
    After the initialisation it holds the line of the initial emission of
    [clickCount$].  Every step of the event loop then appends exactly: for
    each payload handed to the observer of [customInterval$] the producer's
    line 'Emitting new value...' followed by the payload; for its
    completion the line 'COMPLETED'; for each value handed to the observer
    of [clickCount$] the line 'Clicked button v times.' with that value;
    nothing for the completion of [clickCount$] and nothing else.  So the
    lines number the emissions of [clickCount$], plus two for each emission
    of [customInterval$], plus one for its completion. *)
Theorem console_writes_accounted (b : bool) (evs : list Event) (ev : Event) :
  let w := run evs (init b) in
  console (init b) = flat_map click_writes (click_received (init b))
  /\ (exists dk dc,
        click_received (step w ev) = click_received w ++ dk
        /\ custom_received (step w ev) = custom_received w ++ dc
        /\ console (step w ev)
           = console w ++ flat_map custom_writes dc ++ flat_map click_writes dk)
  /\ length (console w)
     = nexts (click_received w) + 2 * nexts (custom_received w)
       + completes (custom_received w).
Proof.
  cbv zeta. destruct (run_sound b evs) as [HI Hk].
  split; [by rewrite init_eq|].
  split; [by destruct (step_sound _ ev HI Hk) as (_ & _ & ?)|].
  apply run_count.
Qed.

End LifecycleSpec.

(** ** Further properties of [customInterval$] *)
Module CustomIntervalMore.
Import Rx CustomInterval CustomIntervalFacts Timers Observations.

Lemma bounded_subscribe (obs : Observer Payload) :
  bounded (CustomInterval.subscribe obs).
Proof. split; [done|]. split; [by eexists|done]. Qed.

Lemma bounded_tick (e : Env) : bounded e -> bounded (tick e).1.
Proof.
  intros (Ht & Hp & Ha). destruct e as [t a s d c]; simpl in *.
  unfold tick, callback; simpl. destruct a; [|done].
  destruct (3 <? t)%N eqn:H3.
  - apply N.ltb_lt in H3. assert (t = 4%N) as -> by lia.
    unfold complete, bounded. destruct s as [[] fs r n]; simpl in *;
      rewrite ?foldl_cleared by done; simpl; try done.
    rewrite (Ha eq_refl). split; [done|]. split; [by eexists|done].
  - apply N.ltb_ge in H3.
    rewrite AppFacts.add1_below
      by (unfold max_exact; change (2 ^ 53)%N with 9007199254740992%N; lia).
    unfold next, bounded. destruct s as [[] fs r n]; simpl in *;
      try (split; [lia|done]).
    rewrite (Ha eq_refl). split; [lia|].
    assert (t = 0 \/ t = 1 \/ t = 2 \/ t = 3)%N as [-> | [-> | [-> | ->]]] by lia;
      (split; [by eexists|done]).
Qed.

Lemma bounded_unsubscribe (e : Env) : bounded e -> bounded (unsubscribe e).
Proof.
  intros (Ht & Hp & Ha). unfold unsubscribe, Rx.unsubscribe.
  destruct (closed (subscriber e)) eqn:Hc; simpl.
  - destruct e as [t a s d c]; simpl in *. by split.
  - match goal with
    | |- bounded (foldl exec_finalizer ?e0 ?l) =>
        destruct (foldl_exec_finalizer e0 l) as (H1 & H2 & _)
    end.
    unfold bounded. rewrite H1, H2. simpl. by split.
Qed.

(** X1: whatever the order of ticks and cancellations, a run of
    [customInterval$] never counts past 4 and its observer never has more
    than four payloads followed by one completion: what it has is always a
    prefix of that sequence. *)
Theorem customInterval_never_overruns
    (obs : Observer Payload) (i : nat) (evs : list Event) :
  let e := own i evs (CustomInterval.subscribe obs) in
  (timesExecuted e <= 4)%N
  /\ received (subscriber e) `prefix_of` expected 5
  /\ length (received (subscriber e)) <= 5.
Proof.
  assert (bounded (own i evs (CustomInterval.subscribe obs))) as (H1 & H2 & _).
  { unfold own. generalize (bounded_subscribe obs).
    generalize (CustomInterval.subscribe obs).
    induction evs as [|ev evs IH]; intros e He; simpl; [done|].
    apply IH. destruct ev as [j|j]; simpl; case_decide; try done.
    - by apply bounded_tick.
    - by apply bounded_unsubscribe. }
  cbv zeta. split; [done|]. split; [done|].
  by apply prefix_length in H2.
Qed.

End CustomIntervalMore.

(** ** The earlier component *)
Module IntervalAppSpec.
Import Rx IntervalApp.

Lemma evens_S (k : nat) : evens (S k) = evens k ++ [double (N.of_nat k)].
Proof. unfold evens. by rewrite seq_S, fmap_app. Qed.

Lemma ticks_state (k : nat) :
  (N.of_nat k <= max_exact)%N ->
  run (replicate k Tick) init
  = mkComponent (N.of_nat k) true
      (Some (mkSubscriber Active [ClearTimer] (Next <$> evens k) 0))
      [NgOnInitCleanup] (evens k).
Proof.
  induction k as [|k IH]; intros Hk; [done|].
  rewrite replicate_S_end, evens_S, fmap_app.
  unfold run in *. rewrite foldl_snoc, IH by lia.
  unfold step, tick, next; simpl.
  assert (add1 (N.of_nat k) = N.of_nat (S k)) as ->.
  { unfold add1. assert ((N.of_nat k <? max_exact)%N = true) as ->; [|lia].
    apply N.ltb_lt. lia. }
  done.
Qed.

(** X2: in the earlier component, as long as it is not destroyed, the
    [k]-th tick of [interval(1000)] logs twice its index: after [k] ticks
    (with [k] within the exact range of a number) the console shows
    [0, 2, ..., 2 (k - 1)], and the timer is still scheduled. *)
Theorem interval_logs_doubles (k : nat) :
  (N.of_nat k <= max_exact)%N ->
  let w := run (replicate k Tick) init in
  console w = evens k
  /\ length (console w) = k
  /\ timer_on w = true.
Proof.
  intros Hk. cbv zeta. rewrite ticks_state by done. simpl.
  split; [done|]. split; [|done]. unfold evens. by rewrite length_fmap, length_seq.
Qed.

Lemma interval_logs_doubles_witness :
  console (run (replicate 4 Tick) init) = [0; 2; 4; 6]%N.
Proof.
  destruct (interval_logs_doubles 4) as (H & _).
  - vm_compute. discriminate.
  - exact H.
Defined.

Lemma alive_or_dead (evs : list Event) : alive (run evs init) \/ dead (run evs init).
Proof.
  induction evs as [|ev evs IH] using rev_ind.
  - left. split; [done|]. split; [done|]. by eexists.
  - unfold run in *. rewrite foldl_snoc.
    destruct IH as [(Ht & Hd & s & Hs & Hc & Hf)|(Ht & Hd)];
      destruct (foldl step init evs) as [c t sub hooks con]; simpl in *; subst.
    + destruct s as [[] fs r n]; simpl in *; try done; subst.
      destruct ev; simpl.
      * left. split; [done|]. split; [done|]. by eexists.
      * right. by split.
    + right. by destruct ev.
Qed.

Lemma dead_step (w : Component) (ev : Event) : dead w -> step w ev = w.
Proof.
  intros (Ht & Hd). destruct w as [c t sub hooks con]; simpl in *; subst.
  by destruct ev.
Qed.

Lemma destroy_dead (w : Component) :
  alive w \/ dead w ->
  dead (destroy w) /\ console (destroy w) = console w
  /\ counter (destroy w) = counter w.
Proof.
  intros [(Ht & Hd & s & Hs & Hc & Hf)|(Ht & Hd)];
    destruct w as [c t sub hooks con]; simpl in *; subst.
  - by destruct s as [[] fs r n]; simpl in *; try done; subst.
  - done.
Qed.

(** X3: in the earlier component the destruction clears the timer of
    [interval(1000)] and writes nothing; whatever happens afterwards, more
    ticks or another destruction, the state stays as the destruction left
    it, so nothing is logged any more. *)
Theorem interval_stops_at_destroy (evs1 evs2 : list Event) :
  let w := run evs1 init in
  run (evs1 ++ Destroy :: evs2) init = destroy w
  /\ timer_on (destroy w) = false
  /\ console (destroy w) = console w.
Proof.
  cbv zeta. destruct (destroy_dead _ (alive_or_dead evs1)) as (Hd & Hc & _).
  split; [|split; [apply Hd|done]].
  unfold run in *. rewrite foldl_app. simpl.
  induction evs2 as [|ev evs2 IH]; simpl; [done|].
  by rewrite dead_step.
Qed.

End IntervalAppSpec.

(** ** Further properties of the component *)
Module AppMore.
Import Rx App AppFacts Observations.

Ltac open_mounted H w :=
  destruct H as (Hd & Hwt & Hst & Hob & (s & Hs & Hss & Hsf) & Hts & Htf & Hto);
  destruct w as [c [d wt bf st ob] [tn ton [tst tfs tr tk] sg] [envs con] sub hooks];
  destruct s as [sst sfs sr sk];
  simpl in *; subst.

Ltac open_unmounted H w :=
  destruct H as (Hd & Hwt & Hst & (s & Hs & Hss & Hsl) & Hts & Hto);
  destruct w as [c [d wt bf st ob] [tn ton [tst tfs tr tk] sg] [envs con] sub hooks];
  destruct s as [sst sfs sr sk];
  simpl in *; subst.

Lemma mounted_init (b : bool) : mounted (init b).
Proof. rewrite init_eq. unfold mounted. split_and!; try done. by eexists. Qed.

(** Before the destruction every event but [Destroy] leaves the component
    mounted. *)
Lemma mounted_step (w : Component) (ev : Event) :
  mounted w -> is_destroy ev = false -> mounted (step w ev).
Proof.
  intros H Hev. open_mounted H w. destruct ev as [| | |i| |]; try done; simpl.
  all: unfold uiClick, onClick, flushEffects, subject_next, deliver, next,
         intervalTick, customTick; simpl.
  all: repeat case_match; simpl; simplify_eq/=.
  all: unfold mounted; simpl; split_and!; try done; by eexists.
Qed.

(** The destruction of a mounted component: the cleanup of [toObservable]
    completes the subscriber of [ngOnInit] before the callback of [ngOnInit]
    runs, which then finds it closed. *)
Lemma mounted_destroy (w : Component) :
  mounted w ->
  unmounted (destroy w)
  /\ clickCount (destroy w) = clickCount w
  /\ dirty (clickCount_obs (destroy w)) = dirty (clickCount_obs w)
  /\ host (destroy w) = host w
  /\ click_values (destroy w) = click_values w
  /\ ticker_next (interval_obs (destroy w)) = ticker_next (interval_obs w)
  /\ intervalSignal (interval_obs (destroy w)) = intervalSignal (interval_obs w).
Proof.
  intros H. open_mounted H w.
  unfold destroy, click_values, click_received; simpl.
  unfold log; simpl. rewrite app_nil_r, omap_app; simpl. rewrite app_nil_r.
  split_and!; try done.
  unfold unmounted; simpl. split_and!; try done.
  eexists; split_and!; try done. apply last_snoc.
Qed.

(** After the destruction nothing moves but the count, the scheduled flag
    of an effect that will not run again, and [customInterval$]. *)
Lemma unmounted_step (w : Component) (ev : Event) :
  unmounted w ->
  unmounted (step w ev)
  /\ subscription (step w ev) = subscription w
  /\ interval_obs (step w ev) = interval_obs w.
Proof.
  intros H. open_unmounted H w. destruct ev as [| | |i| |]; simpl.
  all: unfold uiClick, onClick, flushEffects, subject_next, deliver, next,
         intervalTick, customTick, destroy; simpl.
  all: repeat case_match; simpl; simplify_eq/=.
  all: split; [unfold unmounted; simpl; split_and!; try done; by eexists|done].
Qed.

Lemma run_snoc (evs : list Event) (ev : Event) (w : Component) :
  run (evs ++ [ev]) w = step (run evs w) ev.
Proof. unfold run. apply foldl_snoc. Qed.

(** Every state the component reaches is of one of the two kinds. *)
Lemma mounted_or_unmounted (b : bool) (evs : list Event) :
  mounted (run evs (init b)) \/ unmounted (run evs (init b)).
Proof.
  induction evs as [|ev evs IH] using rev_ind; [left; apply mounted_init|].
  unfold run in *. rewrite foldl_snoc. destruct IH as [H|H].
  - destruct (is_destroy ev) eqn:E.
    + destruct ev; try done. right. by apply mounted_destroy.
    + left. by apply mounted_step.
  - right. by apply unmounted_step.
Qed.

(** *** What a step leaves alone *)

Lemma flushEffects_frame (w : Component) :
  clickCount (flushEffects w) = clickCount w
  /\ Timers.envs (host (flushEffects w)) = Timers.envs (host w).
Proof.
  destruct w as [c [d wt bf st ob] t [envs con] sub hooks].
  unfold flushEffects, subject_next, deliver, next; simpl.
  by repeat case_match; simplify_eq/=.
Qed.

Lemma destroy_frame (w : Component) :
  mounted w \/ unmounted w ->
  clickCount (destroy w) = clickCount w
  /\ dirty (clickCount_obs (destroy w)) = dirty (clickCount_obs w)
  /\ host (destroy w) = host w
  /\ click_values (destroy w) = click_values w
  /\ ticker_next (interval_obs (destroy w)) = ticker_next (interval_obs w)
  /\ intervalSignal (interval_obs (destroy w)) = intervalSignal (interval_obs w).
Proof.
  intros [H|H]; [by apply mounted_destroy|].
  destruct H as (Hd & _). by rewrite (destroy_again w Hd).
Qed.

Lemma step_clickCount (w : Component) (ev : Event) :
  mounted w \/ unmounted w ->
  clickCount (step w ev)
  = if is_increment ev then add1 (clickCount w) else clickCount w.
Proof.
  intros H. destruct ev as [| | |i| |]; simpl; try done.
  - unfold uiClick. destruct (flushEffects_frame (onClick w)) as [-> _].
    apply clickCount_onClick.
  - apply clickCount_onClick.
  - apply flushEffects_frame.
  - unfold intervalTick. by repeat case_match.
  - by apply destroy_frame.
Qed.

Lemma step_envs (w : Component) (ev : Event) :
  mounted w \/ unmounted w ->
  Timers.envs (host (step w ev))
  = match ev with
    | CustomTick i => Timers.envs (Timers.step (host w) (Timers.Tick i))
    | _ => Timers.envs (host w)
    end.
Proof.
  intros H. destruct ev as [| | |i| |]; simpl; try done.
  - unfold uiClick. destruct (flushEffects_frame (onClick w)) as [_ ->].
    by destruct (onClick_fields w) as (-> & _).
  - by destruct (onClick_fields w) as (-> & _).
  - apply flushEffects_frame.
  - unfold intervalTick. by repeat case_match.
  - by destruct (destroy_frame w H) as (_ & _ & -> & _).
Qed.

Lemma add1_min (n : N) :
  add1 (N.min n max_exact) = N.min (n + 1) max_exact.
Proof.
  unfold add1. destruct (N.min n max_exact <? max_exact)%N eqn:E.
  - apply N.ltb_lt in E. lia.
  - apply N.ltb_ge in E. lia.
Qed.

Lemma count_snoc (f : Event -> bool) (evs : list Event) (ev : Event) :
  length (List.filter f (evs ++ [ev]))
  = length (List.filter f evs) + (if f ev then 1 else 0).
Proof. rewrite List.filter_app, length_app. simpl. by destruct (f ev). Qed.

(** X4: [clickCount] counts every call of [onClick], by a click or
    otherwise, whatever else happens in between and also after the
    destruction of the component, up to the limit [2^53] of exact counting,
    where it stays. *)
Theorem clickCount_counts_every_call (b : bool) (evs : list Event) :
  clickCount (run evs (init b))
  = N.min (N.of_nat (increments evs)) max_exact.
Proof.
  induction evs as [|ev evs IH] using rev_ind.
  - by rewrite init_eq.
  - unfold increments in *. rewrite run_snoc, count_snoc.
    rewrite (step_clickCount _ ev (mounted_or_unmounted b evs)), IH.
    destruct (is_increment ev).
    + rewrite add1_min. f_equal. lia.
    + f_equal. lia.
Qed.

Lemma ticks_snoc (k : nat) (e : CustomInterval.Env) :
  (CustomInterval.ticks (S k) e).1
  = (CustomInterval.tick (CustomInterval.ticks k e).1).1.
Proof.
  replace (S k) with (k + 1) by lia. rewrite CustomIntervalFacts.ticks_add.
  destruct (CustomInterval.ticks k e) as [e1 o1]; simpl.
  by destruct (CustomInterval.tick e1).
Qed.

Lemma custom_env (b : bool) (evs : list Event) :
  Timers.envs (host (run evs (init b)))
  = [(CustomInterval.ticks (custom_ticks evs)
        (CustomInterval.subscribe logObserver)).1].
Proof.
  induction evs as [|ev evs IH] using rev_ind.
  - by rewrite init_eq.
  - unfold custom_ticks in *. rewrite run_snoc, count_snoc.
    rewrite (step_envs _ ev (mounted_or_unmounted b evs)).
    destruct ev as [| | |[|i]| |]; simpl; rewrite ?Nat.add_0_r; try done.
    + rewrite IH. simpl. rewrite Nat.add_1_r, ticks_snoc.
      by destruct (CustomInterval.tick _).
    + by rewrite IH.
Qed.

(** X5: the run of [customInterval$] that [ngOnInit] starts depends on
    nothing but the ticks of its own timer: clicks, effects, the other timer
    and the destruction of the component leave it alone.  After [k] of its
    ticks, whenever they come, its observer has the payload [min k 4] times
    and, from the fifth tick on, the completion. *)
Theorem customInterval_runs_to_its_end (b : bool) (evs : list Event) :
  let w := run evs (init b) in
  Timers.envs (host w)
  = [(CustomInterval.ticks (custom_ticks evs)
        (CustomInterval.subscribe logObserver)).1]
  /\ custom_received w = CustomInterval.expected (custom_ticks evs).
Proof.
  cbv zeta. split; [apply custom_env|].
  unfold custom_received. rewrite custom_env. simpl.
  apply CustomIntervalFacts.ticks_fresh.
Qed.

(** *** The order of the emissions of [clickCount$] *)

Lemma rising_onClick (w : Component) : rising w -> rising (onClick w).
Proof.
  intros (Hs & Hle & Hlt). unfold onClick.
  destruct (add1 (clickCount w) =? clickCount w)%N eqn:E; [done|].
  apply N.eqb_neq in E.
  assert (clickCount w < add1 (clickCount w))%N as Hc.
  { unfold add1 in *. case_match; [lia|done]. }
  unfold rising, click_values, click_received in *; simpl.
  split; [done|].
  assert (Forall (λ v, (v < add1 (clickCount w))%N)
            (omap (λ n, match n with Next v => Some v | Complete => None end)
               match subscription w with Some s => received s | None => [] end)).
  { eapply Forall_impl; [exact Hle|]. simpl. intros; lia. }
  split; [|done]. eapply Forall_impl; [exact H|]. simpl. intros; lia.
Qed.

Lemma rising_flushEffects (w : Component) : rising w -> rising (flushEffects w).
Proof.
  intros (Hs & Hle & Hlt).
  destruct w as [c [d wt bf st ob] t [envs con] sub hooks].
  unfold rising, click_values, click_received in *; simpl in *.
  unfold flushEffects, subject_next, deliver, next; simpl.
  destruct d; simpl; [|done]. specialize (Hlt eq_refl).
  assert (Forall (λ v, (v <= c)%N)
            (omap (λ n, match n with Next v => Some v | Complete => None end)
               match sub with Some s => received s | None => [] end)) as Hle'
    by done.
  repeat case_match; simplify_eq/=; try done.
  rewrite omap_app; simpl. split_and!; try done.
  - apply StronglySorted_app. split_and!; [|done|by repeat constructor].
    intros x1 x2 H1 H2. apply list_elem_of_singleton in H2 as ->.
    by eapply Forall_forall in Hlt.
  - apply Forall_app. split; [done|]. by repeat constructor.
Qed.

Lemma rising_step (w : Component) (ev : Event) :
  mounted w \/ unmounted w -> rising w -> rising (step w ev).
Proof.
  intros Hr H. destruct ev as [| | |i| |]; simpl.
  - by apply rising_flushEffects, rising_onClick.
  - by apply rising_onClick.
  - by apply rising_flushEffects.
  - done.
  - unfold intervalTick. by repeat case_match.
  - destruct (destroy_frame w Hr) as (Hc & Hd & _ & Hv & _).
    unfold rising. by rewrite Hc, Hd, Hv.
Qed.

(** X6: the counts that the observer of [clickCount$] is handed rise
    strictly, whatever the order of clicks, calls, runs of the effects,
    timers and the destruction: no count comes twice, none comes late, and
    none exceeds the current [clickCount]. *)
Theorem clickCount_emissions_rise (b : bool) (evs : list Event) :
  let w := run evs (init b) in
  StronglySorted N.lt (click_values w)
  /\ Forall (λ v, (v <= clickCount w)%N) (click_values w).
Proof.
  cbv zeta. assert (rising (run evs (init b))) as (H1 & H2 & _); [|done].
  induction evs as [|ev evs IH] using rev_ind.
  - rewrite init_eq. unfold rising. vm_compute click_values.
    split_and!; by repeat constructor.
  - rewrite run_snoc. by apply rising_step; [apply mounted_or_unmounted|].
Qed.

(** *** After the destruction *)

Lemma unmounted_run (evs : list Event) (w : Component) :
  unmounted w ->
  unmounted (run evs w)
  /\ subscription (run evs w) = subscription w
  /\ interval_obs (run evs w) = interval_obs w.
Proof.
  revert w. induction evs as [|ev evs IH]; intros w H; [done|].
  destruct (unmounted_step w ev H) as (H1 & H2 & H3).
  destruct (IH _ H1) as (H1' & H2' & H3').
  unfold run in *; simpl. split; [done|]. split; congruence.
Qed.

Lemma unmounted_after_destroy (b : bool) (evs : list Event) :
  unmounted (run (evs ++ [Destroy]) (init b)).
Proof.
  rewrite run_snoc. simpl.
  destruct (mounted_or_unmounted b evs) as [H|H]; [by apply mounted_destroy|].
  destruct H as (Hd & ?). by rewrite (destroy_again _ Hd).
Qed.

Lemma run_app (evs evs' : list Event) (w : Component) :
  run (evs ++ evs') w = run evs' (run evs w).
Proof. unfold run. apply foldl_app. Qed.

(** X7: when the component is destroyed, the subscriber of [ngOnInit] ends
    up completed, not cancelled: the cleanup of [toObservable] completes the
    stream before the callback of [ngOnInit] runs, so that its
    [unsubscribe] finds the subscription closed.  The observer's last
    notification is that completion, and whatever happens afterwards, clicks
    included, it is handed nothing more. *)
Theorem clickCount_stream_ends_at_destroy (b : bool) (evs evs' : list Event) :
  let wd := run (evs ++ [Destroy]) (init b) in
  let w' := run (evs ++ Destroy :: evs') (init b) in
  (exists s, subscription wd = Some s
             /\ status s = Completed
             /\ last (received s) = Some Complete)
  /\ subscription w' = subscription wd
  /\ click_received w' = click_received wd.
Proof.
  cbv zeta. pose proof (unmounted_after_destroy b evs) as H.
  replace (evs ++ Destroy :: evs') with ((evs ++ [Destroy]) ++ evs')
    by (by rewrite <- app_assoc).
  rewrite (run_app (evs ++ [Destroy]) evs').
  destruct (unmounted_run evs' _ H) as (_ & Hs & _).
  split; [apply H|]. split; [done|]. unfold click_received. by rewrite Hs.
Qed.

(** X8: the destruction of the component cancels the subscription that
    [toSignal] holds on [interval$] and clears its timer, and leaves
    [intervalSignal] at the value it had; whatever happens afterwards,
    [interval$] and [intervalSignal] stay as they are. *)
Theorem interval_stops_with_component (b : bool) (evs evs' : list Event) :
  let w := run evs (init b) in
  let wd := run (evs ++ [Destroy]) (init b) in
  let w' := run (evs ++ Destroy :: evs') (init b) in
  status (ticker_sub (interval_obs wd)) = Canceled
  /\ ticker_on (interval_obs wd) = false
  /\ intervalSignal (interval_obs wd) = intervalSignal (interval_obs w)
  /\ interval_obs w' = interval_obs wd.
Proof.
  cbv zeta. pose proof (unmounted_after_destroy b evs) as H.
  replace (evs ++ Destroy :: evs') with ((evs ++ [Destroy]) ++ evs')
    by (by rewrite <- app_assoc).
  rewrite (run_app (evs ++ [Destroy]) evs').
  destruct (unmounted_run evs' _ H) as (_ & _ & Ht).
  split; [apply H|]. split; [apply H|]. split; [|done].
  rewrite run_snoc. simpl. by apply destroy_frame, mounted_or_unmounted.
Qed.

(** *** [intervalSignal] before the destruction *)

Lemma mounted_interval (w : Component) (ev : Event) :
  mounted w -> is_destroy ev = false ->
  ticker_next (interval_obs (step w ev))
  = (if is_interval_tick ev then add1 (ticker_next (interval_obs w))
     else ticker_next (interval_obs w))
  /\ intervalSignal (interval_obs (step w ev))
     = (if is_interval_tick ev then ticker_next (interval_obs w)
        else intervalSignal (interval_obs w)).
Proof.
  intros H Hev. open_mounted H w. destruct ev as [| | |i| |]; try done; simpl.
  all: unfold uiClick, onClick, flushEffects, subject_next, deliver, next; simpl.
  all: by repeat case_match; simplify_eq/=.
Qed.

Lemma mounted_run (b : bool) (evs : list Event) :
  forallb (λ ev, negb (is_destroy ev)) evs = true -> mounted (run evs (init b)).
Proof.
  induction evs as [|ev evs IH] using rev_ind; intros H; [apply mounted_init|].
  rewrite forallb_app in H. apply andb_true_iff in H as [H1 H2]. simpl in H2.
  rewrite run_snoc. apply mounted_step; [by apply IH|].
  by destruct (is_destroy ev).
Qed.

(** X9: as long as the component is not destroyed, [intervalSignal] holds
    the number of ticks of [interval$] so far minus one, and 0 before the
    first tick: the values [0, 1, 2, ...] that [interval(1000)] emits, kept
    by [toSignal], whatever clicks and other timers come in between (up to
    the limit [2^53] of exact counting). *)
Theorem intervalSignal_follows_interval (b : bool) (evs : list Event) :
  forallb (λ ev, negb (is_destroy ev)) evs = true ->
  let t := interval_obs (run evs (init b)) in
  ticker_next t = N.min (N.of_nat (interval_ticks evs)) max_exact
  /\ intervalSignal t
     = N.min (N.pred (N.of_nat (interval_ticks evs))) max_exact.
Proof.
  cbv zeta. induction evs as [|ev evs IH] using rev_ind; intros H.
  - by rewrite init_eq.
  - rewrite forallb_app in H. apply andb_true_iff in H as [H1 H2]. simpl in H2.
    destruct (IH H1) as [IHn IHs].
    unfold interval_ticks in *. rewrite run_snoc, count_snoc.
    destruct (mounted_interval _ ev (mounted_run b evs H1)) as [-> ->];
      [by destruct (is_destroy ev)|].
    destruct (is_interval_tick ev).
    + rewrite IHn, add1_min. split; f_equal; lia.
    + rewrite IHn, IHs. split; do 2 f_equal; lia.
Qed.

Lemma intervalSignal_follows_interval_witness :
  intervalSignal
    (interval_obs (run [IntervalTick; Click; IntervalTick; IntervalTick] (init false)))
  = 2%N.
Proof.
  destruct (intervalSignal_follows_interval false
              [IntervalTick; Click; IntervalTick; IntervalTick]) as [_ H].
  - reflexivity.
  - exact H.
Defined.

End AppMore.
